(** * Aerospike MCP server: protocol engine, audit and admission control

    A shallow embedding of the Go sources of the gateway:
    - package [audit]: the input validator, the token-bucket rate limiter
      and the audit logger with its in-memory tail;
    - package [mcp]: the JSON-RPC dispatcher ([handleMessage],
      [routeMethod] and the method handlers) and the request handlers of
      the SSE and long-polling transports.

    Go strings are byte sequences and are modelled by [string] (a list of
    8-bit [ascii]); Go [int] values are modelled by [Z]; the [float64]
    token counts of the rate limiter by binary64 values in [RateLimit64]
    and by exact rationals [Q] in [RateLimit]; a nil pointer, a nil
    interface and a nil [error] by [None]. *)

From Stdlib Require Import ZArith QArith Qminmax String Ascii List Bool Lia Lqa.
From Stdlib Require SpecFloat.
From stdpp Require Import gmap strings list pretty.
Import ListNotations.

Local Open Scope string_scope.
Local Open Scope list_scope.
Local Open Scope Z_scope.

(** ** Go string primitives *)

Module GoString.

(** [len(s)]: the number of bytes, as a Go [int]. *)
Definition len (s : string) : Z := Z.of_nat (String.length s).

Definition byte_in (lo hi c : ascii) : bool :=
  (N_of_ascii lo <=? N_of_ascii c)%N && (N_of_ascii c <=? N_of_ascii hi)%N.

Definition isUpper (c : ascii) : bool := byte_in "A" "Z" c.

(** All bytes below [utf8.RuneSelf] (0x80). *)
Definition isASCIIByte (c : ascii) : bool := (N_of_ascii c <? 128)%N.

Fixpoint isASCII (s : string) : bool :=
  match s with
  | EmptyString => true
  | String c s' => isASCIIByte c && isASCII s'
  end.

(** The ASCII branch of [strings.ToLower]: [c += 'a' - 'A'] on 'A'..'Z'. *)
Definition lowerByte (c : ascii) : ascii :=
  if isUpper c then ascii_of_N (N_of_ascii c + 32) else c.

Fixpoint lowerASCII (s : string) : string :=
  match s with
  | EmptyString => EmptyString
  | String c s' => String (lowerByte c) (lowerASCII s')
  end.

(** [strings.HasPrefix(s, p)]. *)
Fixpoint HasPrefix (s p : string) {struct p} : bool :=
  match p, s with
  | EmptyString, _ => true
  | String _ _, EmptyString => false
  | String b p', String a s' => if ascii_dec a b then HasPrefix s' p' else false
  end.


(** [strings.TrimPrefix(s, p)]. *)
Fixpoint dropBytes (n : nat) (s : string) : string :=
  match n, s with
  | O, _ => s
  | S n', String _ s' => dropBytes n' s'
  | S _, EmptyString => EmptyString
  end.

Definition TrimPrefix (s p : string) : string :=
  if HasPrefix s p then dropBytes (String.length p) s else s.

Section ToLower.
(** [strings.ToLower] takes a byte-wise fast path on ASCII-only input
    and otherwise maps [unicode.ToLower] over the decoded runes; the
    rune path is the parameter [mapUnicodeLower], for which [mapToLower]
    below is what the library does. *)
Variable mapUnicodeLower : string -> string.

Definition ToLower (s : string) : string :=
  if isASCII s then lowerASCII s else mapUnicodeLower s.
End ToLower.

(** [strings.HasSuffix(s, p)]. *)
Definition HasSuffix (s p : string) : bool :=
  (String.length p <=? String.length s)%nat &&
  String.eqb (dropBytes (String.length s - String.length p) s) p.

(** [strings.Split(s, sep)] for a separator [sep] of one byte [c]. *)
Fixpoint SplitByte (c : ascii) (s : string) : list string :=
  match s with
  | EmptyString => [EmptyString]
  | String a s' =>
      if Ascii.eqb a c then EmptyString :: SplitByte c s'
      else
        match SplitByte c s' with
        | piece :: pieces => String a piece :: pieces
        | [] => [String a EmptyString]
        end
  end.

(** [strings.SplitN(s, sep, 2)] for a separator of one byte [c]: the text
    is cut at the first [c], if there is one. *)
Fixpoint SplitN2 (c : ascii) (s : string) : list string :=
  match s with
  | EmptyString => [EmptyString]
  | String a s' =>
      if Ascii.eqb a c then [EmptyString; s']
      else
        match SplitN2 c s' with
        | piece :: pieces => String a piece :: pieces
        | [] => [String a EmptyString]
        end
  end.

(** *** UTF-8

    [runeWidth s] is the width of the encoding that
    [utf8.DecodeRuneInString] accepts at the head of [s], and 0 where it
    reports [RuneError] with width 1 (an invalid or truncated encoding) or
    where [s] is empty. The accepted encodings are those of the
    well-formed byte sequences table: no overlong forms, no surrogates,
    nothing above U+10FFFF. *)

Definition between (lo hi : N) (c : ascii) : bool :=
  (lo <=? N_of_ascii c)%N && (N_of_ascii c <=? hi)%N.

Definition tail1 (lo hi : N) (rest : string) : nat :=
  match rest with
  | String b1 _ => if between lo hi b1 then 2%nat else 0%nat
  | EmptyString => 0%nat
  end.

Definition tail2 (lo hi : N) (rest : string) : nat :=
  match rest with
  | String b1 (String b2 _) =>
      if between lo hi b1 && between 128 191 b2 then 3%nat else 0%nat
  | _ => 0%nat
  end.

Definition tail3 (lo hi : N) (rest : string) : nat :=
  match rest with
  | String b1 (String b2 (String b3 _)) =>
      if between lo hi b1 && between 128 191 b2 && between 128 191 b3
      then 4%nat else 0%nat
  | _ => 0%nat
  end.

Definition runeWidth (s : string) : nat :=
  match s with
  | EmptyString => 0%nat
  | String b0 rest =>
      if isASCIIByte b0 then 1%nat
      else if between 194 223 b0 then tail1 128 191 rest
      else if between 224 224 b0 then tail2 160 191 rest
      else if between 225 236 b0 || between 238 239 b0 then tail2 128 191 rest
      else if between 237 237 b0 then tail2 128 159 rest
      else if between 240 240 b0 then tail3 144 191 rest
      else if between 241 243 b0 then tail3 128 191 rest
      else if between 244 244 b0 then tail3 128 143 rest
      else 0%nat
  end.

(** [utf8.ValidString]: [skip] counts the bytes still to pass of the rune
    being read. *)
Fixpoint validFrom (skip : nat) (s : string) : bool :=
  match s with
  | EmptyString => true
  | String _ s' =>
      match skip with
      | S k => validFrom k s'
      | O =>
          match runeWidth s with
          | O => false
          | S k => validFrom k s'
          end
      end
  end.

Definition ValidString (s : string) : bool := validFrom 0 s.

(** The encoding of [utf8.RuneError] (U+FFFD) that [WriteRune] emits. *)
Definition runeErrorBytes : string :=
  String (ascii_of_N 239) (String (ascii_of_N 191) (String (ascii_of_N 189) EmptyString)).

(** *** Runes

    What [strings.ToLower] does off its ASCII fast path. *)








Section Unicode.
(** [unicode.To(unicode.LowerCase, r)] for a rune above ASCII: a lookup
    in the case tables of the Go runtime, which are not part of this
    repository. *)
Variable lowerTable : N -> N.


End Unicode.


End GoString.

(** ** Validator (package [audit]) *)

Module Validation.
Import GoString.

Record Validator := {
  maxKeyLength : Z;
  maxBinNameLength : Z;
  maxNamespaceLength : Z;
  maxSetNameLength : Z;
  maxBatchSize : Z;
  maxRecordSize : Z
}.

Record ValidatorConfig := {
  MaxKeyLength : Z;
  MaxBinNameLength : Z;
  MaxNamespaceLength : Z;
  MaxSetNameLength : Z;
  MaxBatchSize : Z;
  MaxRecordSize : Z
}.

Definition DefaultValidatorConfig : ValidatorConfig := {|
  MaxKeyLength := 1024;
  MaxBinNameLength := 15;
  MaxNamespaceLength := 31;
  MaxSetNameLength := 63;
  MaxBatchSize := 5000;
  MaxRecordSize := 1024 * 1024
|}.

Definition NewValidator (cfg : ValidatorConfig) : Validator := {|
  maxKeyLength := MaxKeyLength cfg;
  maxBinNameLength := MaxBinNameLength cfg;
  maxNamespaceLength := MaxNamespaceLength cfg;
  maxSetNameLength := MaxSetNameLength cfg;
  maxBatchSize := MaxBatchSize cfg;
  maxRecordSize := MaxRecordSize cfg
|}.

Record ValidationError := { Field : string; Message : string }.

(** The Go [error] result: [None] is [nil]. *)
Definition error := option ValidationError.

(** The character class [[a-zA-Z0-9_-]] of the identifier pattern. A byte
    of a multi-byte or invalid UTF-8 sequence is never in the class, so
    the match can be decided byte by byte. *)
Definition identChar (c : ascii) : bool :=
  byte_in "a" "z" c || byte_in "A" "Z" c || byte_in "0" "9" c
  || Ascii.eqb c "_" || Ascii.eqb c "-".

Fixpoint allIdentChars (s : string) : bool :=
  match s with
  | EmptyString => true
  | String c s' => identChar c && allIdentChars s'
  end.

(** [regexp.MatchString(`^[a-zA-Z0-9_-]+$`, s)] guarded by the emptiness
    test. *)
Definition isValidIdentifier (s : string) : bool :=
  if String.eqb s "" then false else allIdentChars s.

Definition exceeds (what : string) (n : Z) : string :=
  what +:+ pretty n.

Definition ValidateNamespace (v : Validator) (namespace : string) : error :=
  if String.eqb namespace "" then
    Some {| Field := "namespace"; Message := "cannot be empty" |}
  else if maxNamespaceLength v <? len namespace then
    Some {| Field := "namespace";
            Message := exceeds "exceeds maximum length of " (maxNamespaceLength v) |}
  else if negb (isValidIdentifier namespace) then
    Some {| Field := "namespace";
            Message := "contains invalid characters (must be alphanumeric, underscore, or hyphen)" |}
  else None.

Definition ValidateSetName (v : Validator) (setName : string) : error :=
  if String.eqb setName "" then None
  else if maxSetNameLength v <? len setName then
    Some {| Field := "set_name";
            Message := exceeds "exceeds maximum length of " (maxSetNameLength v) |}
  else if negb (isValidIdentifier setName) then
    Some {| Field := "set_name";
            Message := "contains invalid characters (must be alphanumeric, underscore, or hyphen)" |}
  else None.

Definition ValidateBinName (v : Validator) (binName : string) : error :=
  if String.eqb binName "" then
    Some {| Field := "bin_name"; Message := "cannot be empty" |}
  else if maxBinNameLength v <? len binName then
    Some {| Field := "bin_name";
            Message := exceeds "exceeds maximum length of " (maxBinNameLength v) |}
  else if negb (isValidIdentifier binName) then
    Some {| Field := "bin_name";
            Message := "contains invalid characters (must be alphanumeric or underscore)" |}
  else None.

Definition ValidateBatchSize (v : Validator) (size : Z) : error :=
  if size <=? 0 then
    Some {| Field := "batch_size"; Message := "must be positive" |}
  else if maxBatchSize v <? size then
    Some {| Field := "batch_size";
            Message := exceeds "exceeds maximum of " (maxBatchSize v) |}
  else None.



Section UDF.
Variable mapUnicodeLower : string -> string.

End UDF.

(** *** Case-insensitive comparison

    The words "compared case-insensitively" and "in any letter case" of
    the properties, stated without [strings.ToLower].

    On bytes, for a lower-case pattern: a text matches the pattern byte
    for byte, where a byte of the text may also be the upper-case form of
    the pattern's byte. *)

Definition SpecSameLetter (c p : ascii) : Prop :=
  c = p \/ (isUpper c = true /\ N_of_ascii p = (N_of_ascii c + 32)%N).

Inductive SpecMatchesIgnoreCase : string -> string -> Prop :=
| match_empty : SpecMatchesIgnoreCase "" ""
| match_byte c p w pattern :
    SpecSameLetter c p -> SpecMatchesIgnoreCase w pattern ->
    SpecMatchesIgnoreCase (String c w) (String p pattern).

(** On characters, for any text: two characters are the same letter
    when their lower-case forms are equal, and a text contains a pattern
    when some run of consecutive characters of the text is the pattern,
    character for character, letter case apart. *)



Fixpoint noUpper (s : string) : bool :=
  match s with
  | EmptyString => true
  | String c s' => negb (isUpper c) && noUpper s'
  end.

(** *** The other checks *)

Definition ValidateKey (v : Validator) (key : string) : error :=
  if String.eqb key "" then
    Some {| Field := "key"; Message := "cannot be empty" |}
  else if maxKeyLength v <? len key then
    Some {| Field := "key";
            Message := exceeds "exceeds maximum length of " (maxKeyLength v) |}
  else if negb (ValidString key) then
    Some {| Field := "key"; Message := "must be valid UTF-8" |}
  else None.

(** The loop of [ValidateBins] over the names of the map, visited in the
    order [names]: the first invalid name decides the error. *)
Fixpoint ValidateBinsIn (v : Validator) (names : list string) : error :=
  match names with
  | [] => None
  | name :: rest =>
      match ValidateBinName v name with
      | Some err => Some err
      | None => ValidateBinsIn v rest
      end
  end.

(** [ValidateBins]: Go visits the keys of a map in an unspecified order;
    here in the order of [map_to_list]. *)
Definition ValidateBins {V : Type} (v : Validator) (bins : gmap string V) : error :=
  ValidateBinsIn v (map fst (map_to_list bins)).

Definition ValidateIndexName (v : Validator) (indexName : string) : error :=
  if String.eqb indexName "" then
    Some {| Field := "index_name"; Message := "cannot be empty" |}
  else if 256 <? len indexName then
    Some {| Field := "index_name"; Message := "exceeds maximum length of 256" |}
  else if negb (isValidIdentifier indexName) then
    Some {| Field := "index_name"; Message := "contains invalid characters" |}
  else None.

Section ModuleName.
Variable mapUnicodeLower : string -> string.

Definition ValidateModuleName (v : Validator) (moduleName : string) : error :=
  if String.eqb moduleName "" then
    Some {| Field := "module_name"; Message := "cannot be empty" |}
  else if 128 <? len moduleName then
    Some {| Field := "module_name"; Message := "exceeds maximum length of 128" |}
  else if negb (HasSuffix (ToLower mapUnicodeLower moduleName) ".lua") then
    Some {| Field := "module_name"; Message := "must end with .lua extension" |}
  else None.
End ModuleName.

(** The test [r >= 32 && r != 127] on a rune below [utf8.RuneSelf]. *)
Definition keepByte (c : ascii) : bool :=
  (32 <=? N_of_ascii c)%N && negb (N_of_ascii c =? 127)%N.

(** [SanitizeString]: the [range] loop decodes one rune at a time. A rune
    of several bytes is at least 0x80 and is written back by [WriteRune]
    with the bytes it was read from ([copy] counts those still to write);
    a byte that starts no valid encoding is read as [RuneError] and
    written as U+FFFD. *)
Fixpoint sanitizeFrom (copy : nat) (s : string) : string :=
  match s with
  | EmptyString => EmptyString
  | String c s' =>
      match copy with
      | S k => String c (sanitizeFrom k s')
      | O =>
          match runeWidth s with
          | O => runeErrorBytes +:+ sanitizeFrom 0 s'
          | S O => if keepByte c then String c (sanitizeFrom 0 s') else sanitizeFrom 0 s'
          | S (S k) => String c (sanitizeFrom (S k) s')
          end
      end
  end.

Definition SanitizeString (s : string) : string := sanitizeFrom 0 s.

End Validation.


(** ** Rate limiter (package [audit])

    The wall clock is an explicit argument: [now] is the reading that
    [time.Now()] returns inside the call, in seconds. Token counts are
    [float64] in the source and exact rationals here; the two agree as long
    as the values involved are integers of magnitude at most [2^53]. *)

Module RateLimit.

Record RateLimiter := {
  tokens : Q;
  maxTokens : Q;
  refillRate : Q;
  lastRefill : Q;
  enabled : bool
}.

Record RateLimitConfig := {
  Enabled : bool;
  RequestsPerSec : Q;
  BurstSize : Z
}.


Definition NewRateLimiter (cfg : RateLimitConfig) (now : Q) : RateLimiter :=
  let maxTokens0 := inject_Z (BurstSize cfg) in
  let maxTokens1 := if Qle_bool maxTokens0 0 then 200%Q else maxTokens0 in
  let refillRate0 := RequestsPerSec cfg in
  let refillRate1 := if Qle_bool refillRate0 0 then 100%Q else refillRate0 in
  {| tokens := maxTokens1;
     maxTokens := maxTokens1;
     refillRate := refillRate1;
     lastRefill := now;
     enabled := Enabled cfg |}.

(** [refill]: credit the elapsed time, clamp at [maxTokens]. *)
Definition refill (now : Q) (r : RateLimiter) : RateLimiter :=
  let elapsed := (now - lastRefill r)%Q in
  let credited := (tokens r + elapsed * refillRate r)%Q in
  {| tokens := if Qle_bool credited (maxTokens r) then credited else maxTokens r;
     maxTokens := maxTokens r;
     refillRate := refillRate r;
     lastRefill := now;
     enabled := enabled r |}.

Definition spend (n : Q) (r : RateLimiter) : RateLimiter :=
  {| tokens := (tokens r - n)%Q;
     maxTokens := maxTokens r;
     refillRate := refillRate r;
     lastRefill := lastRefill r;
     enabled := enabled r |}.

Definition Allow (now : Q) (r : RateLimiter) : bool * RateLimiter :=
  if negb (enabled r) then (true, r)
  else
    let r1 := refill now r in
    if Qle_bool 1 (tokens r1) then (true, spend 1 r1) else (false, r1).

Definition AllowN (now : Q) (n : Z) (r : RateLimiter) : bool * RateLimiter :=
  if negb (enabled r) then (true, r)
  else
    let r1 := refill now r in
    let needed := inject_Z n in
    if Qle_bool needed (tokens r1) then (true, spend needed r1) else (false, r1).



(** [n] consecutive calls of [Allow], all reading the same clock value:
    the loop of [TestRateLimiterAllow]. *)
Fixpoint AllowTimes (now : Q) (n : nat) (r : RateLimiter) : list bool * RateLimiter :=
  match n with
  | O => ([], r)
  | S n' =>
      let '(ok, r1) := Allow now r in
      let '(oks, r2) := AllowTimes now n' r1 in
      (ok :: oks, r2)
  end.


(** The polling loop of [Wait]: [attempts] polls are left, the next one
    reads the clock at [clock i]; the sleep between two polls is what
    makes the readings grow. The error is [None] when nil. *)
Fixpoint waitLoop (clock : nat -> Q) (i attempts : nat) (r : RateLimiter)
    : option string * RateLimiter :=
  match attempts with
  | O => (Some "rate limit exceeded", r)
  | S n =>
      let '(ok, r1) := Allow (clock i) r in
      if ok then (None, r1) else waitLoop clock (S i) n r1
  end.

Definition Wait (clock : nat -> Q) (r : RateLimiter) : option string * RateLimiter :=
  if negb (enabled r) then (None, r) else waitLoop clock 0 100 r.

(** What [refill] credits at clock reading [now], before the clamp. *)
Definition credited (now : Q) (r : RateLimiter) : Q :=
  (tokens r + (now - lastRefill r) * refillRate r)%Q.

End RateLimit.

(** ** Rate limiter on binary64

    The same limiter with its arithmetic as the source has it: token
    count, capacity and refill rate are IEEE 754 binary64 values
    ([spec_float] with the operations of [SpecFloat] at precision 53),
    clock readings are whole nanoseconds, and the elapsed time goes
    through [Time.Sub] and [Duration.Seconds]. [RateLimit] above computes
    the same steps on exact rationals; the two agree where every value
    met is a whole number of magnitude at most [2^53]. *)

Module RateLimit64.
Import SpecFloat.

Definition float64 : Type := spec_float.

Definition fadd : float64 -> float64 -> float64 := SFadd 53 1024.
Definition fsub : float64 -> float64 -> float64 := SFsub 53 1024.
Definition fmul : float64 -> float64 -> float64 := SFmul 53 1024.
Definition fdiv : float64 -> float64 -> float64 := SFdiv 53 1024.

(** The conversion [float64(n)] of a Go [int]. *)
Definition ofInt (n : Z) : float64 := binary_normalize 53 1024 n 0 false.

(** Neither a NaN nor an infinity. *)
Definition isFinite (x : float64) : bool :=
  match x with
  | S754_zero _ | S754_finite _ _ _ => true
  | _ => false
  end.

(** [Time.Sub]: the difference of two clock readings in nanoseconds,
    saturated to the range of a [Duration]. *)
Definition Sub (t u : Z) : Z := Z.max (- 2 ^ 63) (Z.min (2 ^ 63 - 1) (t - u)).

(** [Duration.Seconds]. *)
Definition Seconds (d : Z) : float64 :=
  fadd (ofInt (Z.quot d 1000000000))
       (fdiv (ofInt (Z.rem d 1000000000)) (ofInt 1000000000)).

Record RateLimiter := {
  tokens : float64;
  maxTokens : float64;
  refillRate : float64;
  lastRefill : Z;
  enabled : bool
}.

Record RateLimitConfig := {
  Enabled : bool;
  RequestsPerSec : float64;
  BurstSize : Z
}.

Definition NewRateLimiter (cfg : RateLimitConfig) (now : Z) : RateLimiter :=
  let maxTokens0 := ofInt (BurstSize cfg) in
  let maxTokens1 := if SFleb maxTokens0 (ofInt 0) then ofInt 200 else maxTokens0 in
  let refillRate0 := RequestsPerSec cfg in
  let refillRate1 := if SFleb refillRate0 (ofInt 0) then ofInt 100 else refillRate0 in
  {| tokens := maxTokens1;
     maxTokens := maxTokens1;
     refillRate := refillRate1;
     lastRefill := now;
     enabled := Enabled cfg |}.

Definition refill (now : Z) (r : RateLimiter) : RateLimiter :=
  let elapsed := Seconds (Sub now (lastRefill r)) in
  let credited := fadd (tokens r) (fmul elapsed (refillRate r)) in
  {| tokens := if SFltb (maxTokens r) credited then maxTokens r else credited;
     maxTokens := maxTokens r;
     refillRate := refillRate r;
     lastRefill := now;
     enabled := enabled r |}.

Definition Allow (now : Z) (r : RateLimiter) : bool * RateLimiter :=
  if negb (enabled r) then (true, r)
  else
    let r1 := refill now r in
    if SFleb (ofInt 1) (tokens r1) then
      (true, {| tokens := fsub (tokens r1) (ofInt 1);
                maxTokens := maxTokens r1;
                refillRate := refillRate r1;
                lastRefill := lastRefill r1;
                enabled := enabled r1 |})
    else (false, r1).

Fixpoint AllowTimes (now : Z) (n : nat) (r : RateLimiter) : list bool * RateLimiter :=
  match n with
  | O => ([], r)
  | S n' =>
      let '(ok, r1) := Allow now r in
      let '(oks, r2) := AllowTimes now n' r1 in
      (ok :: oks, r2)
  end.

(** The state of an enabled limiter of capacity [C] that holds [k] whole
    tokens, was last refilled at [now] and refills at a finite rate. *)
Definition Holds (now C k : Z) (r : RateLimiter) : Prop :=
  enabled r = true /\ lastRefill r = now /\ tokens r = ofInt k /\
  maxTokens r = ofInt C /\ isFinite (refillRate r) = true.

(** [n] doublings of a mantissa, and the number of bits of one. *)
Definition shl (p : positive) (n : nat) : positive := Nat.iter n xO p.

Definition digits (p : positive) : Z := Zpos (digits2_pos p).

End RateLimit64.

(** ** Audit logger (package [audit]) *)

Module AuditLog.

Definition Level := string.
Definition LevelInfo : Level := "INFO".
Definition LevelWarning : Level := "WARNING".
Definition LevelError : Level := "ERROR".
Definition LevelAudit : Level := "AUDIT".

Definition Category := string.
Definition CategoryRead : Category := "READ".
Definition CategoryWrite : Category := "WRITE".
Definition CategoryAdmin : Category := "ADMIN".
Definition CategoryAuth : Category := "AUTH".
Definition CategorySystem : Category := "SYSTEM".

(** A value of the [Details] map. [DetailOpaque] stands for a Go value
    that [encoding/json] refuses (a channel, a function). *)
Inductive DetailValue :=
| DetailString (s : string)
| DetailInt (n : Z)
| DetailBool (b : bool)
| DetailOpaque.

(** [Timestamp] is [None] for the zero [time.Time]; [Set_] is the field
    [Set]. *)
Record Event := {
  Timestamp : option Q;
  EvLevel : Level;
  EvCategory : Category;
  Operation : string;
  Namespace : string;
  Set_ : string;
  Key : string;
  User : string;
  ClientID : string;
  Duration : Q;
  Success : bool;
  Error : string;
  Details : gmap string DetailValue;
  RecordCount : Z
}.

(** The zero [Event], on which a composite literal sets some fields. *)
Definition zeroEvent : Event := {|
  Timestamp := None; EvLevel := ""; EvCategory := ""; Operation := "";
  Namespace := ""; Set_ := ""; Key := ""; User := ""; ClientID := "";
  Duration := 0; Success := false; Error := ""; Details := ∅;
  RecordCount := 0
|}.

(** [sink] lists the records written to [writer], one per [Write]. *)
Record Logger := {
  sink : list Event;
  enabled : bool;
  minLevel : Level;
  buffer : list Event;
  bufSize : Z
}.

Record Config := {
  Enabled : bool;
  FilePath : string;
  BufferSize : Z;
  MinLevel : Level
}.

Definition DefaultConfig : Config := {|
  Enabled := true; FilePath := ""; BufferSize := 100; MinLevel := LevelInfo
|}.

(** [fileOpens] is the outcome of [os.OpenFile]; the result is [None] when
    [NewLogger] returns an error. *)
Definition NewLogger (fileOpens : bool) (cfg : Config) : option Logger :=
  if negb (String.eqb (FilePath cfg) "") && negb fileOpens then None
  else
    let bufSize0 := BufferSize cfg in
    let bufSize1 := if bufSize0 <=? 0 then 100 else bufSize0 in
    Some {| sink := [];
            enabled := Enabled cfg;
            minLevel := MinLevel cfg;
            buffer := [];
            bufSize := bufSize1 |}.

Definition encodable (d : DetailValue) : bool :=
  match d with DetailOpaque => false | _ => true end.

(** Whether [json.Marshal(event)] succeeds. *)
Definition marshals (event : Event) : bool :=
  forallb (fun kv => encodable (snd kv)) (map_to_list (Details event)).

Definition stamp (now : Q) (event : Event) : Event :=
  match Timestamp event with
  | Some _ => event
  | None =>
      {| Timestamp := Some now; EvLevel := EvLevel event;
         EvCategory := EvCategory event; Operation := Operation event;
         Namespace := Namespace event; Set_ := Set_ event; Key := Key event;
         User := User event; ClientID := ClientID event;
         Duration := Duration event; Success := Success event;
         Error := Error event; Details := Details event;
         RecordCount := RecordCount event |}
  end.

(** [l.buffer = append(l.buffer, event)] followed by the trimming test
    [len(l.buffer) >= l.bufSize]. *)
Definition push (event : Event) (l : Logger) : list Event :=
  let appended := buffer l ++ [event] in
  if bufSize l <=? Z.of_nat (length appended) then tail appended else appended.

Definition Log (now : Q) (event : Event) (l : Logger) : Logger :=
  if negb (enabled l) then l
  else
    let event1 := stamp now event in
    if negb (marshals event1) then l
    else
      {| sink := sink l ++ [event1];
         enabled := enabled l;
         minLevel := minLevel l;
         buffer := push event1 l;
         bufSize := bufSize l |}.

(** [None] is the run-time panic of [make([]Event, count)] on a negative
    count. *)
Definition GetRecentEvents (count : Z) (l : Logger) : option (list Event) :=
  let n := Z.of_nat (length (buffer l)) in
  let count1 := if n <? count then n else count in
  if count1 <? 0 then None
  else
    let start := n - count1 in
    Some (drop (Z.to_nat start) (buffer l)).

(** The last [n] elements of a list (all of it when it is shorter). *)
Definition keepLast {A : Type} (n : nat) (l : list A) : list A :=
  drop (length l - n) l.

(** Logging a batch of events in order, all at clock reading [now]. *)
Definition LogAll (now : Q) (events : list Event) (l : Logger) : Logger :=
  fold_left (fun acc e => Log now e acc) events l.

(** *** Request context

    The values of a [context.Context]: the bindings made by
    [context.WithValue], innermost first. [ctx.Value(key)] finds the
    innermost binding of [key]. *)

Definition contextKey := string.
Definition ContextKeyUser : contextKey := "audit_user".
Definition ContextKeyClientID : contextKey := "audit_client_id".

Definition Context := list (contextKey * string).

Definition Background : Context := [].

Fixpoint Value (ctx : Context) (key : contextKey) : option string :=
  match ctx with
  | [] => None
  | (k, v) :: parent => if String.eqb k key then Some v else Value parent key
  end.

Definition WithUser (ctx : Context) (user : string) : Context :=
  (ContextKeyUser, user) :: ctx.

Definition WithClientID (ctx : Context) (clientID : string) : Context :=
  (ContextKeyClientID, clientID) :: ctx.

(** The two [if v := ctx.Value(key); v != nil] assignments. *)
Definition withContext (ctx : Context) (event : Event) : Event :=
  {| Timestamp := Timestamp event; EvLevel := EvLevel event;
     EvCategory := EvCategory event; Operation := Operation event;
     Namespace := Namespace event; Set_ := Set_ event; Key := Key event;
     User := match Value ctx ContextKeyUser with
             | Some user => user
             | None => User event
             end;
     ClientID := match Value ctx ContextKeyClientID with
                 | Some clientID => clientID
                 | None => ClientID event
                 end;
     Duration := Duration event; Success := Success event;
     Error := Error event; Details := Details event;
     RecordCount := RecordCount event |}.

(** The event of [LogRead], [LogWrite] and [LogAdmin] before the context
    values are copied: [level] is the level of a success, a failure is
    logged at [LevelError] with its text. *)
Definition outcomeEvent (level : Level) (category : Category)
    (operation namespace set key : string) (recordCount : Z) (duration : Q)
    (details : gmap string DetailValue) (err : option string) : Event :=
  {| Timestamp := None;
     EvLevel := match err with None => level | Some _ => LevelError end;
     EvCategory := category; Operation := operation;
     Namespace := namespace; Set_ := set; Key := key;
     User := ""; ClientID := "";
     Duration := duration;
     Success := match err with None => true | Some _ => false end;
     Error := match err with None => "" | Some e => e end;
     Details := details;
     RecordCount := recordCount |}.

Definition LogRead (now : Q) (ctx : Context) (operation namespace set key : string)
    (recordCount : Z) (duration : Q) (err : option string) (l : Logger) : Logger :=
  Log now (withContext ctx
             (outcomeEvent LevelInfo CategoryRead operation namespace set key
                recordCount duration ∅ err)) l.

Definition LogWrite (now : Q) (ctx : Context) (operation namespace set key : string)
    (recordCount : Z) (duration : Q) (err : option string) (l : Logger) : Logger :=
  Log now (withContext ctx
             (outcomeEvent LevelAudit CategoryWrite operation namespace set key
                recordCount duration ∅ err)) l.

Definition LogAdmin (now : Q) (ctx : Context) (operation : string)
    (details : gmap string DetailValue) (duration : Q) (err : option string)
    (l : Logger) : Logger :=
  Log now (withContext ctx
             (outcomeEvent LevelAudit CategoryAdmin operation "" "" ""
                0 duration details err)) l.

(** [LogAuth] receives the context and does not read it. *)
Definition LogAuth (now : Q) (ctx : Context) (operation : string) (success : bool)
    (details : gmap string DetailValue) (l : Logger) : Logger :=
  Log now
    {| Timestamp := None;
       EvLevel := if success then LevelAudit else LevelWarning;
       EvCategory := CategoryAuth; Operation := operation;
       Namespace := ""; Set_ := ""; Key := ""; User := ""; ClientID := "";
       Duration := 0; Success := success; Error := ""; Details := details;
       RecordCount := 0 |} l.

(** Whether an event carries a time stamp. *)
Definition stamped (event : Event) : Prop := Timestamp event <> None.

End AuditLog.


(** ** Protocol server (package [mcp]) *)

Module Mcp.

Definition MCPVersion : string := "2024-11-05".
Definition ServerName : string := "aerospike-mcp-server".
Definition ServerVersion : string := "0.1.0".

(** [json.RawMessage]; [None] is the nil slice of an absent member. *)
Definition RawMessage := option string.

(** The dynamic value that [encoding/json] stores in the [interface{}]
    field [ID]: a number, a string, or any other non-null JSON value kept
    by its text. A missing or [null] id decodes to the nil interface. *)
Inductive JsonID :=
| IDNumber (n : Q)
| IDString (s : string)
| IDOther (raw : string).

Record Request := {
  JSONRPC : string;
  ID : option JsonID;
  Method : string;
  Params : RawMessage
}.

Record Error := {
  Code : Z;
  Message : string;
  Data : option string
}.

Definition ParseError : Z := -32700.
Definition InvalidRequest : Z := -32600.
Definition MethodNotFound : Z := -32601.
Definition InvalidParams : Z := -32602.
Definition InternalError : Z := -32603.

Record InitializeParams := {
  ProtocolVersion : string;
  ClientInfoName : string;
  ClientInfoVersion : string
}.

Definition zeroInitializeParams : InitializeParams :=
  {| ProtocolVersion := ""; ClientInfoName := ""; ClientInfoVersion := "" |}.

(** The three capability members are always set to empty structs. *)
Record InitializeResult := {
  ResultProtocolVersion : string;
  ServerInfoName : string;
  ServerInfoVersion : string
}.

(** [tools.ToolDefinition], with the input schema kept by its text. *)
Record ToolDefinition := {
  ToolName : string;
  ToolDescription : string;
  InputSchema : string
}.

Record ToolsCallParams := {
  Name : string;
  Arguments : RawMessage
}.

(** [BlockType] is the field [Type]. *)
Record ContentBlock := {
  BlockType : string;
  Text : string
}.

Record ToolsCallResult := {
  Content : list ContentBlock;
  IsError : bool
}.

Record ResourceDefinition := {
  ResourceURI : string;
  ResourceName : string;
  ResourceDescription : string;
  ResourceMimeType : string
}.

Record ResourcesReadParams := { URI : string }.

Record ResourceContent := {
  ContentURI : string;
  MimeType : string;
  ContentText : string
}.

Record ResourcesReadResult := { Contents : list ResourceContent }.

(** The dynamic value of the [interface{}] that [routeMethod] returns and
    [Response.Result] holds; the nil interface is [None]. *)
Inductive ResultValue :=
| ResultInitialize (r : InitializeResult)
| ResultToolsList (defs : list ToolDefinition)
| ResultToolsCall (r : ToolsCallResult)
| ResultResourcesList (defs : list ResourceDefinition)
| ResultResourcesRead (r : ResourcesReadResult)
| ResultPromptsList (prompts : list string).

(** With [omitempty], a member is on the wire exactly when its field is
    not nil. *)
Record Response := {
  RespJSONRPC : string;
  RespID : option JsonID;
  Result : option ResultValue;
  RespError : option Error
}.

(** *** External collaborators *)

(** [encoding/json]: each decoder stands for [json.Unmarshal] into the named
    struct and yields the decoded value or the error text. *)
Record Codec := {
  decodeRequest : string -> Request + string;
  decodeInitializeParams : string -> InitializeParams + string;
  decodeToolsCallParams : string -> ToolsCallParams + string;
  decodeResourcesReadParams : string -> ResourcesReadParams + string;
  encodeResponse : Response -> string + string
}.

(** [json.Unmarshal(params, &v)]: a nil [params] is an unexpected end of
    input. *)
Definition Unmarshal {A : Type} (decode : string -> A + string)
    (params : RawMessage) : A + string :=
  match params with
  | None => inr "unexpected end of JSON input"
  | Some data => decode data
  end.

(** What a tool handler returns: the result as [json.MarshalIndent] renders
    it, or the error text, and the wall time the call took. The backing
    store is external. *)
Record ToolOutcome := {
  toolReturn : string + string;
  toolElapsed : Q
}.

Definition ToolHandler := RawMessage -> ToolOutcome.

(** [(content, mimeType, err)] of a resource reader. *)
Definition ReadOutcome : Type := (string * string) + string.

(** The readers behind [resources.Registry.Read]. *)
Record ResourceBackend := {
  readClusterInfo : ReadOutcome;
  readNamespaceResource : string -> ReadOutcome;
  readUDFs : ReadOutcome;
  readSchema : string -> ReadOutcome
}.

(** [callLog] is the history of calls that entered [tools.Registry.Call],
    oldest first. *)
Record Server := {
  tools : gmap string ToolHandler;
  toolDefs : list ToolDefinition;
  resources : ResourceBackend;
  resourceDefs : list ResourceDefinition;
  auditLogger : option AuditLog.Logger;
  rateLimiter : RateLimit.RateLimiter;
  callLog : list (string * RawMessage)
}.

Definition withRateLimiter (r : RateLimit.RateLimiter) (s : Server) : Server :=
  {| tools := tools s; toolDefs := toolDefs s; resources := resources s;
     resourceDefs := resourceDefs s; auditLogger := auditLogger s;
     rateLimiter := r; callLog := callLog s |}.

Definition withAuditLogger (l : option AuditLog.Logger) (s : Server) : Server :=
  {| tools := tools s; toolDefs := toolDefs s; resources := resources s;
     resourceDefs := resourceDefs s; auditLogger := l;
     rateLimiter := rateLimiter s; callLog := callLog s |}.

Definition withCallLog (log : list (string * RawMessage)) (s : Server) : Server :=
  {| tools := tools s; toolDefs := toolDefs s; resources := resources s;
     resourceDefs := resourceDefs s; auditLogger := auditLogger s;
     rateLimiter := rateLimiter s; callLog := log |}.

(** [config.AuditConfig]. *)
Record AuditConfig := {
  AuditEnabled : bool;
  AuditFilePath : string;
  AuditBufferSize : Z;
  RateLimitEnabled : bool;
  RateLimitRPS : Q;
  RateLimitBurst : Z
}.

(** [NewServer]: a logger that fails to open leaves [auditLogger] nil. *)
Definition NewServer (fileOpens : bool) (now : Q) (cfg : AuditConfig)
    (registry : gmap string ToolHandler) (defs : list ToolDefinition)
    (backend : ResourceBackend) (rdefs : list ResourceDefinition) : Server :=
  let auditCfg := {| AuditLog.Enabled := AuditEnabled cfg;
                     AuditLog.FilePath := AuditFilePath cfg;
                     AuditLog.BufferSize := AuditBufferSize cfg;
                     AuditLog.MinLevel := "" |} in
  let rateLimitCfg := {| RateLimit.Enabled := RateLimitEnabled cfg;
                         RateLimit.RequestsPerSec := RateLimitRPS cfg;
                         RateLimit.BurstSize := RateLimitBurst cfg |} in
  {| tools := registry; toolDefs := defs; resources := backend;
     resourceDefs := rdefs;
     auditLogger := AuditLog.NewLogger fileOpens auditCfg;
     rateLimiter := RateLimit.NewRateLimiter rateLimitCfg now;
     callLog := [] |}.

(** [if s.auditLogger != nil { s.auditLogger.Log(event) }]. *)
Definition auditLog (now : Q) (event : AuditLog.Event) (s : Server) : Server :=
  match auditLogger s with
  | None => s
  | Some l => withAuditLogger (Some (AuditLog.Log now event l)) s
  end.

(** [tools.Registry.Call]. *)
Definition toolsCall (name : string) (args : RawMessage) (s : Server)
    : ToolOutcome * Server :=
  let s1 := withCallLog (callLog s ++ [(name, args)]) s in
  match tools s !! name with
  | None => ({| toolReturn := inr ("unknown tool: " +:+ name);
                toolElapsed := 0 |}, s1)
  | Some handler => (handler args, s1)
  end.

(** [resources.Registry.Read]. *)
Definition resourcesRead (uri : string) (s : Server) : ReadOutcome :=
  if negb (GoString.HasPrefix uri "aerospike://") then
    inr ("invalid URI scheme: " +:+ uri)
  else
    let path := GoString.TrimPrefix uri "aerospike://" in
    if String.eqb path "cluster/info" then readClusterInfo (resources s)
    else if GoString.HasPrefix path "ns/" then
      readNamespaceResource (resources s) path
    else if String.eqb path "udfs" then readUDFs (resources s)
    else if GoString.HasPrefix path "schema/" then readSchema (resources s) path
    else inr ("unknown resource: " +:+ uri).

Definition writeOps : gmap string bool :=
  list_to_map [("put_record", true); ("delete_record", true);
               ("batch_write", true); ("operate", true)].

Definition adminOps : gmap string bool :=
  list_to_map [("create_index", true); ("drop_index", true);
               ("truncate_set", true); ("register_udf", true);
               ("remove_udf", true)].

(** Indexing a Go map yields the zero value [false] on a missing key. *)
Definition isWriteOperation (op : string) : bool := default false (writeOps !! op).

Definition isAdminOperation (op : string) : bool := default false (adminOps !! op).

Definition errorString (err : option string) : string :=
  match err with
  | None => ""
  | Some e => e
  end.

(** *** Method handlers

    A handler whose two results are a pointer and an [*Error], exactly one
    of them non-nil, returns a sum here. [now] is the clock reading on entry. *)

Section Handlers.
Context (codec : Codec).

Definition invalidParams (err : string) : Error :=
  {| Code := InvalidParams; Message := "Invalid params"; Data := Some err |}.

Definition handleInitialize (params : RawMessage) : InitializeResult + Error :=
  let decoded :=
    match params with
    | None => inl zeroInitializeParams
    | Some data => decodeInitializeParams codec data
    end in
  match decoded with
  | inr err => inr (invalidParams err)
  | inl _ =>
      inl {| ResultProtocolVersion := MCPVersion;
             ServerInfoName := ServerName;
             ServerInfoVersion := ServerVersion |}
  end.

Definition handleToolsList (s : Server) : list ToolDefinition := toolDefs s.

Definition textBlock (text : string) : ContentBlock :=
  {| BlockType := "text"; Text := text |}.

Definition rateLimitEvent (name : string) : AuditLog.Event := {|
  AuditLog.Timestamp := None;
  AuditLog.EvLevel := AuditLog.LevelWarning;
  AuditLog.EvCategory := AuditLog.CategoryWrite;
  AuditLog.Operation := name;
  AuditLog.Namespace := ""; AuditLog.Set_ := ""; AuditLog.Key := "";
  AuditLog.User := ""; AuditLog.ClientID := "";
  AuditLog.Duration := 0;
  AuditLog.Success := false;
  AuditLog.Error := "rate limit exceeded";
  AuditLog.Details := ∅;
  AuditLog.RecordCount := 0
|}.

Definition rateLimitResult : ToolsCallResult := {|
  Content := [textBlock "Error: rate limit exceeded, please try again later"];
  IsError := true
|}.

Definition callCategory (name : string) : AuditLog.Category :=
  let category0 := AuditLog.CategoryRead in
  let category1 := if isWriteOperation name then AuditLog.CategoryWrite else category0 in
  if isAdminOperation name then AuditLog.CategoryAdmin else category1.

Definition callEvent (name : string) (duration : Q) (err : option string)
    : AuditLog.Event := {|
  AuditLog.Timestamp := None;
  AuditLog.EvLevel := AuditLog.LevelAudit;
  AuditLog.EvCategory := callCategory name;
  AuditLog.Operation := name;
  AuditLog.Namespace := ""; AuditLog.Set_ := ""; AuditLog.Key := "";
  AuditLog.User := ""; AuditLog.ClientID := "";
  AuditLog.Duration := duration;
  AuditLog.Success := match err with None => true | Some _ => false end;
  AuditLog.Error := errorString err;
  AuditLog.Details := ∅;
  AuditLog.RecordCount := 0
|}.

(** The rate-limit gate at the head of [handleToolsCall]: only a write
    operation reaches [Allow]. *)
Definition rateGate (now : Q) (name : string) (s : Server) : bool * Server :=
  if isWriteOperation name then
    let '(ok, r) := RateLimit.Allow now (rateLimiter s) in
    (ok, withRateLimiter r s)
  else (true, s).

Definition handleToolsCall (now : Q) (params : RawMessage) (s : Server)
    : (ToolsCallResult + Error) * Server :=
  match Unmarshal (decodeToolsCallParams codec) params with
  | inr err => (inr (invalidParams err), s)
  | inl callParams =>
      let name := Name callParams in
      let '(passed, s1) := rateGate now name s in
      if negb passed then
        (inl rateLimitResult, auditLog now (rateLimitEvent name) s1)
      else
        let '(outcome, s2) := toolsCall name (Arguments callParams) s1 in
        let duration := toolElapsed outcome in
        let err := match toolReturn outcome with
                   | inl _ => None
                   | inr e => Some e
                   end in
        let s3 := auditLog (now + duration)%Q (callEvent name duration err) s2 in
        match toolReturn outcome with
        | inr e =>
            (inl {| Content := [textBlock ("Error: " +:+ e)]; IsError := true |}, s3)
        | inl resultJSON =>
            (inl {| Content := [textBlock resultJSON]; IsError := false |}, s3)
        end
  end.

Definition handleResourcesList (s : Server) : list ResourceDefinition :=
  resourceDefs s.

Definition handleResourcesRead (params : RawMessage) (s : Server)
    : ResourcesReadResult + Error :=
  match Unmarshal (decodeResourcesReadParams codec) params with
  | inr err => inr (invalidParams err)
  | inl readParams =>
      match resourcesRead (URI readParams) s with
      | inr err =>
          inr {| Code := InternalError;
                 Message := "Resource read failed";
                 Data := Some err |}
      | inl (content, mimeType) =>
          inl {| Contents := [ {| ContentURI := URI readParams;
                                  MimeType := mimeType;
                                  ContentText := content |} ] |}
      end
  end.

Definition handlePromptsList : list string := [].

(** The pair [(interface{}, *Error)] that [routeMethod] returns; the
    result component is meaningful only when the error is nil. *)
Definition Routed : Type := option ResultValue * option Error.

Definition routed {A : Type} (wrap : A -> ResultValue) (r : A + Error) : Routed :=
  match r with
  | inl a => (Some (wrap a), None)
  | inr e => (None, Some e)
  end.

Definition routeMethod (now : Q) (method : string) (params : RawMessage)
    (s : Server) : Routed * Server :=
  if String.eqb method "initialize" then
    (routed ResultInitialize (handleInitialize params), s)
  else if String.eqb method "initialized" then ((None, None), s)
  else if String.eqb method "shutdown" then ((None, None), s)
  else if String.eqb method "tools/list" then
    ((Some (ResultToolsList (handleToolsList s)), None), s)
  else if String.eqb method "tools/call" then
    let '(r, s1) := handleToolsCall now params s in
    (routed ResultToolsCall r, s1)
  else if String.eqb method "resources/list" then
    ((Some (ResultResourcesList (handleResourcesList s)), None), s)
  else if String.eqb method "resources/read" then
    (routed ResultResourcesRead (handleResourcesRead params s), s)
  else if String.eqb method "prompts/list" then
    ((Some (ResultPromptsList handlePromptsList), None), s)
  else
    ((None, Some {| Code := MethodNotFound;
                    Message := "Method not found";
                    Data := Some method |}), s).

(** [handleMessage] returns a [*Response]; [None] would be the nil
    pointer that the transports test for. *)
Definition handleMessage (now : Q) (message : string) (s : Server)
    : option Response * Server :=
  match decodeRequest codec message with
  | inr err =>
      (Some {| RespJSONRPC := "2.0"; RespID := None; Result := None;
               RespError := Some {| Code := ParseError;
                                    Message := "Parse error";
                                    Data := Some err |} |}, s)
  | inl req =>
      if negb (String.eqb (JSONRPC req) "2.0") then
        (Some {| RespJSONRPC := "2.0"; RespID := ID req; Result := None;
                 RespError := Some {| Code := InvalidRequest;
                                      Message := "Invalid Request";
                                      Data := Some "jsonrpc must be '2.0'" |} |}, s)
      else
        let '((result, err), s1) := routeMethod now (Method req) (Params req) s in
        match err with
        | Some e =>
            (Some {| RespJSONRPC := "2.0"; RespID := ID req; Result := None;
                     RespError := Some e |}, s1)
        | None =>
            (Some {| RespJSONRPC := "2.0"; RespID := ID req; Result := result;
                     RespError := None |}, s1)
        end
  end.

End Handlers.

End Mcp.


(** ** HTTP transports (package [mcp]: [SSEServer], [WebSocketServer])

    One handler call is one step on the server state; the buffered channel
    of a client is a bounded FIFO. *)

Module Transport.
Import Mcp.

(** [make(chan []byte, capacity)]: [queue] lists the pending messages,
    oldest first. *)
Record Chan := {
  queue : list string;
  capacity : nat
}.

Definition makeChan (n : nat) : Chan := {| queue := []; capacity := n |}.

(** A send that is ready: [None] when the buffer is full, where a
    [select] falls to its [default] case and a plain send blocks. *)
Definition trySend (msg : string) (c : Chan) : option Chan :=
  if (length (queue c) <? capacity c)%nat then
    Some {| queue := queue c ++ [msg]; capacity := capacity c |}
  else None.

(** A receive that is ready: [None] on an empty buffer. *)
Definition tryRecv (c : Chan) : option (string * Chan) :=
  match queue c with
  | [] => None
  | msg :: rest => Some (msg, {| queue := rest; capacity := capacity c |})
  end.

Record HttpResponse := {
  status : Z;
  body : string
}.

(** The line feed and the double quote, written by their codes. *)
Definition LF : string := String (ascii_of_N 10) EmptyString.
Definition DQ : string := String (ascii_of_N 34) EmptyString.

(** [http.Error]: the status code, and the text followed by a line feed
    ([fmt.Fprintln]) as the body. *)
Definition httpError (text : string) (code : Z) : HttpResponse :=
  {| status := code; body := text +:+ LF |}.

Record SSEClient := {
  sseID : string;
  sseMessages : Chan
}.

Record SSEServer := {
  sseServer : Server;
  sseClients : gmap string SSEClient
}.

(** The registration step of [handleSSE] for a fresh [uuid]. *)
Definition sseConnect (clientID : string) (t : SSEServer) : SSEServer :=
  {| sseServer := sseServer t;
     sseClients := <[clientID := {| sseID := clientID;
                                    sseMessages := makeChan 100 |}]> (sseClients t) |}.

Record WSClient := {
  wsID : string;
  wsMessages : Chan;
  lastPing : Q
}.

Record WebSocketServer := {
  wsServer : Server;
  wsClients : gmap string WSClient
}.

(** [handleWebSocket] for a fresh [uuid]. *)
Definition wsConnect (now : Q) (clientID : string) (t : WebSocketServer)
    : WebSocketServer :=
  {| wsServer := wsServer t;
     wsClients := <[clientID := {| wsID := clientID;
                                   wsMessages := makeChan 100;
                                   lastPing := now |}]> (wsClients t) |}.

Section Handlers.
Context (codec : Codec).

(** The queueing [select] of the SSE [handleMessage]: a full buffer takes
    the [default] case, which only logs. *)
Definition sseEnqueue (responseBytes : string) (c : Chan) : Chan :=
  match trySend responseBytes c with
  | Some c' => c'
  | None => c
  end.

(** [SSEServer.handleMessage]. *)
Definition sseHandleMessage (now : Q) (httpMethod sessionID requestBody : string)
    (t : SSEServer) : HttpResponse * SSEServer :=
  if negb (String.eqb httpMethod "POST") then
    (httpError "Method not allowed" 405, t)
  else if String.eqb sessionID "" then
    (httpError "Missing sessionId" 400, t)
  else
    match sseClients t !! sessionID with
    | None => (httpError "Session not found" 404, t)
    | Some client =>
        let '(response, s1) := handleMessage codec now requestBody (sseServer t) in
        let t1 := {| sseServer := s1; sseClients := sseClients t |} in
        match response with
        | None => ({| status := 202; body := "Accepted" |}, t1)
        | Some resp =>
            match encodeResponse codec resp with
            | inr _ => (httpError "Failed to marshal response" 500, t1)
            | inl responseBytes =>
                let client1 :=
                  {| sseID := sseID client;
                     sseMessages := sseEnqueue responseBytes (sseMessages client) |} in
                ({| status := 202; body := "Accepted" |},
                 {| sseServer := s1;
                    sseClients := <[sessionID := client1]> (sseClients t) |})
            end
        end
    end.

(** The queueing [select] of [handleSend]: on a full buffer one pending
    message is received and discarded if there is one, then the new one is
    sent with a plain send. [None]: that send is not ready. *)
Definition wsEnqueue (responseData : string) (c : Chan) : option Chan :=
  match trySend responseData c with
  | Some c' => Some c'
  | None =>
      let c1 := match tryRecv c with
                | Some (_, c') => c'
                | None => c
                end in
      trySend responseData c1
  end.

(** [json.Marshal] of the [*Response]; a nil pointer encodes as [null]. *)
Definition marshalResponse (response : option Response) : string + string :=
  match response with
  | None => inl "null"
  | Some resp => encodeResponse codec resp
  end.

(** [WebSocketServer.handleSend]; [None]: the handler is blocked on its
    final send. *)
Definition wsHandleSend (now : Q) (httpMethod clientID requestData : string)
    (t : WebSocketServer) : option (HttpResponse * WebSocketServer) :=
  if negb (String.eqb httpMethod "POST") then
    Some (httpError "Method not allowed" 405, t)
  else if String.eqb clientID "" then
    Some (httpError "X-Client-ID header required" 400, t)
  else
    match wsClients t !! clientID with
    | None => Some (httpError "Client not found" 404, t)
    | Some client =>
        let pinged (ch : Chan) :=
          {| wsID := wsID client; wsMessages := ch; lastPing := now |} in
        let '(response, s1) := handleMessage codec now requestData (wsServer t) in
        let t1 := {| wsServer := s1;
                     wsClients := <[clientID := pinged (wsMessages client)]> (wsClients t) |} in
        match marshalResponse response with
        | inr _ => Some (httpError "Failed to marshal response" 500, t1)
        | inl responseData =>
            match wsEnqueue responseData (wsMessages client) with
            | None => None
            | Some ch =>
                Some ({| status := 200; body := responseData |},
                      {| wsServer := s1;
                         wsClients := <[clientID := pinged ch]> (wsClients t) |})
            end
        end
    end.

End Handlers.

(** *** Delivery, session teardown and health *)

(** The announcement that [handleSSE] writes first on a new stream. *)
Definition sseEndpointEvent (clientID : string) : string :=
  "event: endpoint" +:+ LF +:+ "data: /message?sessionId=" +:+ clientID +:+ LF +:+ LF.

(** One turn of the stream loop of [handleSSE] for the session
    [clientID]: the oldest pending message is received and framed as one
    event. [None]: the loop is waiting on an empty queue (or the session
    is gone). *)
Definition sseDeliver (clientID : string) (t : SSEServer) : option (string * SSEServer) :=
  match sseClients t !! clientID with
  | None => None
  | Some client =>
      match tryRecv (sseMessages client) with
      | None => None
      | Some (msg, ch) =>
          Some ("event: message" +:+ LF +:+ "data: " +:+ msg +:+ LF +:+ LF,
                {| sseServer := sseServer t;
                   sseClients := <[clientID := {| sseID := sseID client;
                                                  sseMessages := ch |}]>
                                   (sseClients t) |})
      end
  end.

(** The deferred teardown of [handleSSE] when the stream ends. *)
Definition sseDisconnect (clientID : string) (t : SSEServer) : SSEServer :=
  {| sseServer := sseServer t; sseClients := delete clientID (sseClients t) |}.

(** The [clients] member of the health reports. *)
Definition sseHealthClients (t : SSEServer) : nat := size (sseClients t).
Definition wsHealthClients (t : WebSocketServer) : nat := size (wsClients t).

(** The body [{"status":"no_messages"}] that [json.Encoder.Encode]
    writes, with its closing line feed. *)
Definition noMessagesBody : string :=
  "{" +:+ DQ +:+ "status" +:+ DQ +:+ ":" +:+ DQ +:+ "no_messages" +:+ DQ +:+ "}" +:+ LF.

(** [WebSocketServer.handleReceive] with no concurrent sender and no
    cancellation of the request: a pending message is returned at once,
    and on an empty queue the 30 s timer fires. *)
Definition wsHandleReceive (now : Q) (clientID : string) (t : WebSocketServer)
    : HttpResponse * WebSocketServer :=
  if String.eqb clientID "" then
    (httpError "X-Client-ID header required" 400, t)
  else
    match wsClients t !! clientID with
    | None => (httpError "Client not found" 404, t)
    | Some client =>
        let pinged (ch : Chan) :=
          {| wsID := wsID client; wsMessages := ch; lastPing := now |} in
        match tryRecv (wsMessages client) with
        | Some (msg, ch) =>
            ({| status := 200; body := msg |},
             {| wsServer := wsServer t;
                wsClients := <[clientID := pinged ch]> (wsClients t) |})
        | None =>
            ({| status := 200; body := noMessagesBody |},
             {| wsServer := wsServer t;
                wsClients := <[clientID := pinged (wsMessages client)]> (wsClients t) |})
        end
    end.

(** A client is stale when its last ping is more than five minutes
    (300 s) old. *)
Definition stale (now : Q) (client : WSClient) : bool :=
  negb (Qle_bool (now - lastPing client) 300).

(** One tick of [cleanupStaleClients]: the stale clients are deleted. *)
Definition wsSweep (now : Q) (t : WebSocketServer) : WebSocketServer :=
  {| wsServer := wsServer t;
     wsClients := filter (fun kv => stale now (snd kv) = false) (wsClients t) |}.

(** [WebSocketServer.Disconnect]. *)
Definition Disconnect (clientID : string) (t : WebSocketServer) : WebSocketServer :=
  {| wsServer := wsServer t; wsClients := delete clientID (wsClients t) |}.

(** A queue holds at most its (positive) capacity. *)
Definition chanBounded (c : Chan) : Prop :=
  (length (queue c) <= capacity c)%nat /\ (0 < capacity c)%nat.

Definition sseBounded (t : SSEServer) : Prop :=
  forall id client, sseClients t !! id = Some client -> chanBounded (sseMessages client).

Definition wsBounded (t : WebSocketServer) : Prop :=
  forall id client, wsClients t !! id = Some client -> chanBounded (wsMessages client).

End Transport.


(** ** Tool registry (package [tools]) and roles (package [config])

    A handler needs the backing store and is taken from [handlers], by the
    name it is registered under. A tool definition of [List] is kept by
    its [Name]; descriptions and schemas are constant data. *)

Module Tools.
Import Mcp.

Definition Role := string.
Definition RoleReadOnly : Role := "read-only".
Definition RoleReadWrite : Role := "read-write".
Definition RoleAdmin : Role := "admin".

(** [Config.CanWrite] and [Config.CanAdmin]. *)
Definition CanWrite (role : Role) : bool :=
  String.eqb role RoleReadWrite || String.eqb role RoleAdmin.

Definition CanAdmin (role : Role) : bool := String.eqb role RoleAdmin.

Section Registry.
Context (handlers : string -> ToolHandler).

(** A run of assignments [r.tools[name] = handler]. *)
Definition register (names : list string) (registry : gmap string ToolHandler)
    : gmap string ToolHandler :=
  fold_left (fun m name => <[name := handlers name]> m) names registry.

Definition registerSchemaTools := register
  ["list_namespaces"; "describe_namespace"; "list_sets"; "describe_set"].

Definition registerReadTools := register
  ["get_record"; "batch_get"; "query_records"; "scan_set"].

Definition registerWriteTools := register
  ["put_record"; "delete_record"; "batch_write"; "operate"].

Definition registerIndexTools := register
  ["create_index"; "drop_index"; "truncate_set"; "list_udfs"; "register_udf";
   "remove_udf"; "execute_udf"].

Definition registerClusterTools := register
  ["cluster_info"; "list_indexes"; "node_stats"].

(** [NewRegistry]: the write tools are registered for a role that can
    write, the index and UDF tools for a role that can administer. *)
Definition NewRegistry (role : Role) : gmap string ToolHandler :=
  let r0 := registerSchemaTools ∅ in
  let r1 := registerReadTools r0 in
  let r2 := if CanWrite role then registerWriteTools r1 else r1 in
  let r3 := if CanAdmin role then registerIndexTools r2 else r2 in
  registerClusterTools r3.

End Registry.

(** The names of the definitions that [Registry.List] returns, in its
    order. *)
Definition ListNames (role : Role) : list string :=
  let definitions0 :=
    ["list_namespaces"; "describe_namespace"; "list_sets"; "describe_set";
     "get_record"; "batch_get"; "query_records"; "scan_set";
     "cluster_info"; "list_indexes"] in
  let definitions1 :=
    if CanWrite role
    then definitions0 ++ ["put_record"; "delete_record"; "batch_write"; "operate"]
    else definitions0 in
  let definitions2 :=
    if CanAdmin role
    then definitions1 ++ ["create_index"; "drop_index"; "truncate_set"; "list_udfs";
                          "register_udf"; "remove_udf"; "execute_udf"]
    else definitions1 in
  definitions2 ++ ["node_stats"].

End Tools.

(** ** Sample configuration

    A small deployment on which the handlers can be run: a decoding table
    for a handful of messages, three registered tools and a server built by
    [NewServer]. The JSON texts are written with ['] for the double quote. *)

Module Sample.
Import Mcp.

Definition notifyInitialized : string := "{'jsonrpc':'2.0','method':'initialized'}".
Definition requestShutdown : string := "{'jsonrpc':'2.0','id':1,'method':'shutdown'}".
Definition readBadScheme : string :=
  "{'jsonrpc':'2.0','id':2,'method':'resources/read','params':{'uri':'http://example'}}".
Definition callCreateIndex : string :=
  "{'jsonrpc':'2.0','id':3,'method':'tools/call','params':{'name':'create_index'}}".
Definition callPutRecord : string :=
  "{'jsonrpc':'2.0','id':4,'method':'tools/call','params':{'name':'put_record'}}".
Definition callGetRecord : string :=
  "{'jsonrpc':'2.0','id':5,'method':'tools/call','params':{'name':'get_record'}}".

Definition request (id : option Z) (method : string) (params : RawMessage) : Request :=
  {| JSONRPC := "2.0";
     ID := match id with Some n => Some (IDNumber (inject_Z n)) | None => None end;
     Method := method;
     Params := params |}.

Definition sampleRequests : list (string * Request) :=
  [ (notifyInitialized, request None "initialized" None);
    (requestShutdown, request (Some 1) "shutdown" None);
    (readBadScheme, request (Some 2) "resources/read" (Some "{'uri':'http://example'}"));
    (callCreateIndex, request (Some 3) "tools/call" (Some "{'name':'create_index'}"));
    (callPutRecord, request (Some 4) "tools/call" (Some "{'name':'put_record'}"));
    (callGetRecord, request (Some 5) "tools/call" (Some "{'name':'get_record'}")) ].

Fixpoint assoc {A : Type} (key : string) (table : list (string * A)) : option A :=
  match table with
  | [] => None
  | (k, v) :: rest => if String.eqb key k then Some v else assoc key rest
  end.

Definition decodeWith {A : Type} (table : list (string * A)) (data : string)
    : A + string :=
  match assoc data table with
  | Some v => inl v
  | None => inr "invalid character"
  end.

Definition sampleCalls : list (string * ToolsCallParams) :=
  [ ("{'name':'create_index'}", {| Name := "create_index"; Arguments := None |});
    ("{'name':'put_record'}", {| Name := "put_record"; Arguments := None |});
    ("{'name':'get_record'}", {| Name := "get_record"; Arguments := None |}) ].

Definition sampleReads : list (string * ResourcesReadParams) :=
  [ ("{'uri':'http://example'}", {| URI := "http://example" |}) ].

Definition renderResponse (resp : Response) : string :=
  match RespError resp with
  | Some e => "{'jsonrpc':'2.0','error':" +:+ pretty (Code e) +:+ "}"
  | None => "{'jsonrpc':'2.0','result':{}}"
  end.

Definition codec : Codec := {|
  decodeRequest := decodeWith sampleRequests;
  decodeInitializeParams := fun _ => inl zeroInitializeParams;
  decodeToolsCallParams := decodeWith sampleCalls;
  decodeResourcesReadParams := decodeWith sampleReads;
  encodeResponse := fun resp => inl (renderResponse resp)
|}.

Definition succeed (resultJSON : string) : ToolHandler :=
  fun _ => {| toolReturn := inl resultJSON; toolElapsed := 0 |}.

Definition failWith (err : string) : ToolHandler :=
  fun _ => {| toolReturn := inr err; toolElapsed := 0 |}.

Definition registry : gmap string ToolHandler :=
  list_to_map [ ("create_index", succeed "{}");
                ("put_record", succeed "{}");
                ("get_record", failWith "record not found") ].

Definition backend : ResourceBackend := {|
  readClusterInfo := inl ("{}", "application/json");
  readNamespaceResource := fun _ => inl ("{}", "application/json");
  readUDFs := inl ("[]", "application/json");
  readSchema := fun _ => inr "set not found"
|}.

Definition auditConfig (auditOn : bool) : AuditConfig := {|
  AuditEnabled := auditOn;
  AuditFilePath := "";
  AuditBufferSize := 100;
  RateLimitEnabled := true;
  RateLimitRPS := 100;
  RateLimitBurst := 1
|}.

(** A server started at clock reading 0 with a burst of one token. *)
Definition server (auditOn : bool) : Server :=
  NewServer true 0 (auditConfig auditOn) registry [] backend [].

(** The same server after one successful [put_record] at reading 0: its
    only token is spent. *)
Definition exhausted (auditOn : bool) : Server :=
  snd (handleMessage codec 0 callPutRecord (server auditOn)).

(** Four events with distinct operations. *)
Definition op (name : string) : AuditLog.Event := {|
  AuditLog.Timestamp := None; AuditLog.EvLevel := ""; AuditLog.EvCategory := "";
  AuditLog.Operation := name; AuditLog.Namespace := ""; AuditLog.Set_ := "";
  AuditLog.Key := ""; AuditLog.User := ""; AuditLog.ClientID := "";
  AuditLog.Duration := 0; AuditLog.Success := false; AuditLog.Error := "";
  AuditLog.Details := ∅; AuditLog.RecordCount := 0
|}.

(** A logger with a ring of three slots. *)
Definition ring3 : option AuditLog.Logger :=
  AuditLog.NewLogger true
    {| AuditLog.Enabled := true; AuditLog.FilePath := "";
       AuditLog.BufferSize := 3; AuditLog.MinLevel := "" |}.

(** A session whose queue of capacity 100 holds 100 copies of [m]. *)
Definition fullChan : Transport.Chan :=
  {| Transport.queue := repeat "m" 100; Transport.capacity := 100 |}.

Definition sseFull : Transport.SSEServer := {|
  Transport.sseServer := server true;
  Transport.sseClients :=
    {[ "s1" := {| Transport.sseID := "s1"; Transport.sseMessages := fullChan |} ]}
|}.

Definition wsFull : Transport.WebSocketServer := {|
  Transport.wsServer := server true;
  Transport.wsClients :=
    {[ "c1" := {| Transport.wsID := "c1"; Transport.wsMessages := fullChan;
                  Transport.lastPing := 0 |} ]}
|}.


End Sample.


(** * Properties *)

(** ** Go string primitives *)

Module GoStringFacts.
Import GoString.

Lemma len_nonneg (s : string) : 0 <= len s.
Proof. unfold len. lia. Qed.

Lemma len_empty (s : string) : len s = 0 <-> s = "".
Proof.
  unfold len. destruct s; simpl; split; intros H; try reflexivity; try discriminate; lia.
Qed.



Lemma lowerASCII_app (a b : string) :
  lowerASCII (a +:+ b) = lowerASCII a +:+ lowerASCII b.
Proof. induction a as [|c a IH]; simpl; [reflexivity | now rewrite IH]. Qed.

(** A split of the lowered text comes from a split of the text. *)
Lemma lowerASCII_split (s x y : string) :
  lowerASCII s = x +:+ y ->
  exists a b, s = a +:+ b /\ lowerASCII a = x /\ lowerASCII b = y.
Proof.
  revert s. induction x as [|c x IH]; intros s H; simpl in H.
  - exists "", s. auto.
  - destruct s as [|d s]; simpl in H; [discriminate|].
    inversion H as [[Hc Hs]]. destruct (IH _ Hs) as (a & b & Hs' & Ha & Hb).
    exists (String d a), b. subst s. simpl. rewrite Ha. auto.
Qed.

Lemma isUpper_bound (c : ascii) :
  isUpper c = true -> (65 <= N_of_ascii c <= 90)%N.
Proof.
  unfold isUpper, byte_in. rewrite andb_true_iff, !N.leb_le. simpl. lia.
Qed.

Lemma N_of_lowerByte (c : ascii) :
  isUpper c = true -> N_of_ascii (lowerByte c) = (N_of_ascii c + 32)%N.
Proof.
  intros H. unfold lowerByte. rewrite H.
  apply N_ascii_embedding. apply isUpper_bound in H. lia.
Qed.

End GoStringFacts.

(** ** Runes and their encoding *)

Module RunesFacts.
Import GoString GoStringFacts Validation.















Section Lower.
Context (lowerTable : N -> N).






End Lower.

End RunesFacts.

(** ** Validator *)

Module ValidationFacts.
Import GoString GoStringFacts RunesFacts Validation.

Lemma eqb_empty_false (s : string) : 0 < len s -> String.eqb s "" = false.
Proof.
  intros H. apply String.eqb_neq. intros ->. unfold len in H. simpl in H. lia.
Qed.

Lemma allIdentChars_In (s : string) (c : ascii) :
  allIdentChars s = true -> In c (list_ascii_of_string s) -> identChar c = true.
Proof.
  induction s as [|d s IH]; simpl; [tauto|].
  rewrite andb_true_iff. intros [Hd Hs] [<- | Hin]; auto.
Qed.

Lemma bad_char_not_identifier (s : string) (c : ascii) :
  In c (list_ascii_of_string s) -> identChar c = false -> isValidIdentifier s = false.
Proof.
  intros Hin Hc. unfold isValidIdentifier.
  destruct (String.eqb s ""); [reflexivity|].
  destruct (allIdentChars s) eqn:Hall; [|reflexivity].
  rewrite (allIdentChars_In s c Hall Hin) in Hc. discriminate.
Qed.

Lemma In_nonempty (s : string) (c : ascii) :
  In c (list_ascii_of_string s) -> String.eqb s "" = false.
Proof. destruct s; simpl; [tauto | reflexivity]. Qed.

(** C9. For a validator with any configured maxima: a bin name made of
    allowed characters whose length is exactly the (positive) configured
    maximum passes; a bin name one byte longer fails; a name holding a
    character outside [[a-zA-Z0-9_-]] fails as a bin name, a namespace and
    a set name; the empty namespace fails; the empty set name passes. *)
Theorem validator_boundaries (v : Validator) :
  (forall name, 0 < maxBinNameLength v -> len name = maxBinNameLength v ->
     allIdentChars name = true -> ValidateBinName v name = None) /\
  (forall name, len name = maxBinNameLength v + 1 ->
     ValidateBinName v name <> None) /\
  (forall name c, In c (list_ascii_of_string name) -> identChar c = false ->
     ValidateBinName v name <> None /\ ValidateNamespace v name <> None /\
     ValidateSetName v name <> None) /\
  ValidateNamespace v "" <> None /\
  ValidateSetName v "" = None.
Proof.
  repeat split.
  - intros name Hpos Hlen Hall. unfold ValidateBinName.
    rewrite eqb_empty_false by lia.
    replace (maxBinNameLength v <? len name) with false
      by (symmetry; apply Z.ltb_ge; lia).
    unfold isValidIdentifier. rewrite eqb_empty_false by lia.
    now rewrite Hall.
  - intros name Hlen. unfold ValidateBinName.
    destruct (String.eqb name ""); [discriminate|].
    replace (maxBinNameLength v <? len name) with true
      by (symmetry; apply Z.ltb_lt; lia).
    discriminate.
  - unfold ValidateBinName. rewrite (In_nonempty _ _ H).
    destruct (_ <? _); [discriminate|].
    rewrite (bad_char_not_identifier _ _ H H0). discriminate.
  - unfold ValidateNamespace. rewrite (In_nonempty _ _ H).
    destruct (_ <? _); [discriminate|].
    rewrite (bad_char_not_identifier _ _ H H0). discriminate.
  - unfold ValidateSetName. rewrite (In_nonempty _ _ H).
    destruct (_ <? _); [discriminate|].
    rewrite (bad_char_not_identifier _ _ H H0). discriminate.
  - discriminate.
Qed.

Lemma validator_boundaries_witness :
  let v := NewValidator DefaultValidatorConfig in
  ValidateBinName v "aaaaaaaaaaaaaaa" = None /\
  ValidateBinName v "aaaaaaaaaaaaaaaa" <> None /\
  ValidateBinName v "name@field" <> None /\
  ValidateNamespace v "" <> None /\
  ValidateSetName v "" = None.
Proof.
  intros v.
  destruct (validator_boundaries v) as (Hmax & Hover & Hbad & Hns & Hset).
  split; [apply Hmax; reflexivity|].
  split; [apply Hover; reflexivity|].
  split; [|split; assumption].
  apply (Hbad "name@field" "@"%char); [|reflexivity].
  simpl. do 4 right. left. reflexivity.
Defined.

(** *** The UDF denylist *)

Lemma lowerByte_sameLetter (c p : ascii) :
  isUpper p = false -> (lowerByte c = p <-> SpecSameLetter c p).
Proof.
  intros Hp. unfold SpecSameLetter. split.
  - intros <-. destruct (isUpper c) eqn:Hc.
    + right. split; [reflexivity | now apply N_of_lowerByte].
    + left. unfold lowerByte. now rewrite Hc.
  - intros [-> | [Hc Hn]].
    + unfold lowerByte. now rewrite Hp.
    + unfold lowerByte. rewrite Hc, <- Hn. apply ascii_N_embedding.
Qed.

Lemma lowerASCII_matches (w pattern : string) :
  noUpper pattern = true ->
  (lowerASCII w = pattern <-> SpecMatchesIgnoreCase w pattern).
Proof.
  revert w. induction pattern as [|p pattern IH]; intros w Hno.
  - split.
    + destruct w; simpl; [constructor | discriminate].
    + intros H. inversion H. reflexivity.
  - simpl in Hno. apply andb_true_iff in Hno as [Hp Hno].
    apply negb_true_iff in Hp. split.
    + destruct w as [|c w]; simpl; [discriminate|].
      intros H. inversion H as [[Hc Hw]]. rewrite Hc, Hw.
      constructor; [now apply lowerByte_sameLetter | now apply IH].
    + intros H. inversion H as [|c p' w' pattern' Hsame Hrest]; subst.
      simpl. f_equal; [now apply lowerByte_sameLetter | now apply IH].
Qed.






End ValidationFacts.

(** ** Rate limiter *)

Module RateLimitFacts.
Import RateLimit.

Lemma Qle_bool_false (x y : Q) : Qle_bool x y = false <-> (y < x)%Q.
Proof.
  split.
  - intros H. apply Qnot_le_lt. intros Hle. apply Qle_bool_iff in Hle. congruence.
  - intros H. destruct (Qle_bool x y) eqn:E; [|reflexivity].
    apply Qle_bool_iff in E. exfalso. exact (Qlt_not_le _ _ H E).
Qed.



(** A disabled limiter allows every call and keeps its state. *)
Lemma Allow_disabled (now : Q) (r : RateLimiter) :
  enabled r = false -> Allow now r = (true, r).
Proof. intros H. unfold Allow. now rewrite H. Qed.

End RateLimitFacts.

(** ** Rate limiter on binary64 *)

Module RateLimit64Facts.
Import SpecFloat RateLimit64.

Lemma shl_S (p : positive) (n : nat) : shl p (S n) = xO (shl p n).
Proof. reflexivity. Qed.

Lemma shl_add (p : positive) (a b : nat) : shl (shl p a) b = shl p (a + b).
Proof.
  unfold shl. rewrite Nat.add_comm. symmetry. apply Nat.iter_add.
Qed.

Lemma Pos_iter_shl (p n : positive) : Pos.iter xO p n = shl p (Pos.to_nat n).
Proof. unfold shl. apply Pos2Nat.inj_iter. Qed.

Lemma shl_value (p : positive) (n : nat) : Zpos (shl p n) = Zpos p * 2 ^ Z.of_nat n.
Proof.
  induction n as [|n IH]; [simpl; lia|].
  rewrite shl_S, Pos2Z.inj_xO, IH, Nat2Z.inj_succ, Z.pow_succ_r by lia. lia.
Qed.

Lemma digits_pos (p : positive) : 1 <= digits p.
Proof. unfold digits. lia. Qed.

Lemma digits_shl (p : positive) (n : nat) : digits (shl p n) = digits p + Z.of_nat n.
Proof.
  unfold digits. induction n as [|n IH]; [simpl; lia|].
  rewrite shl_S. cbn [digits2_pos]. rewrite Pos2Z.inj_succ, IH. lia.
Qed.

Lemma digits_size (p : positive) : digits2_pos p = Pos.size p.
Proof. induction p; simpl; congruence. Qed.

Lemma digits_bounds (p : positive) : 2 ^ (digits p - 1) <= Zpos p < 2 ^ digits p.
Proof.
  unfold digits. rewrite digits_size. split.
  - pose proof (Pos.size_le p) as H.
    apply Pos2Z.pos_le_pos in H. rewrite Pos2Z.inj_pow in H.
    assert (E : 2 ^ Zpos (Pos.size p) = 2 * 2 ^ (Zpos (Pos.size p) - 1)).
    { rewrite <- Z.pow_succ_r by lia. f_equal. lia. }
    rewrite (Pos2Z.inj_xO p) in H. lia.
  - pose proof (Pos.size_gt p) as H.
    apply Pos2Z.pos_lt_pos in H. now rewrite Pos2Z.inj_pow in H.
Qed.

Lemma iter_pos_nat {A : Type} (f : A -> A) (n : positive) (x : A) :
  iter_pos f n x = Nat.iter (Pos.to_nat n) f x.
Proof.
  revert x. induction n as [n IH|n IH|]; intros x; cbn [iter_pos].
  - rewrite !IH, Pos2Nat.inj_xI, <- Nat.iter_add, <- Nat.iter_succ_r.
    f_equal. lia.
  - rewrite !IH, Pos2Nat.inj_xO, <- Nat.iter_add. f_equal. lia.
  - reflexivity.
Qed.

(** Halving a mantissa that was doubled [n] times loses nothing. *)
Lemma shr_exact (q : positive) (n : nat) :
  Nat.iter n shr_1 {| shr_m := Zpos (shl q n); shr_r := false; shr_s := false |}
  = {| shr_m := Zpos q; shr_r := false; shr_s := false |}.
Proof.
  induction n as [|n IH]; [reflexivity|].
  rewrite Nat.iter_succ_r, shl_S. exact IH.
Qed.

Lemma fexp_normal (d : Z) : -1021 <= d -> fexp 53 1024 d = d - 53.
Proof. intros H. unfold fexp, emin. lia. Qed.

(** A mantissa of 53 bits with its exponent in range is kept as it is. *)
Lemma binary_round_aux_53 (s : bool) (m : positive) (e : Z) :
  digits m = 53 -> -1074 <= e <= 971 ->
  binary_round_aux 53 1024 s (Zpos m) e loc_Exact = S754_finite s m e.
Proof.
  intros Hd He. unfold binary_round_aux, shr_fexp. cbn [Zdigits2 shr_record_of_loc].
  fold (digits m). rewrite Hd, fexp_normal by lia.
  replace (53 + e - 53 - e) with 0 by lia. cbn [shr shr_m shr_r shr_s loc_of_shr_record
    round_nearest_even Zdigits2 shr_record_of_loc].
  fold (digits m). rewrite Hd, fexp_normal by lia.
  replace (53 + e - 53 - e) with 0 by lia. cbn [shr shr_m].
  destruct (e <=? 1024 - 53) eqn:E; [reflexivity | lia].
Qed.

(** Rounding [q * 2^n * 2^e] when [q] has at most 53 bits: exact. *)
Lemma binary_round_shl (s : bool) (q : positive) (n : nat) (e : Z) :
  digits q <= 53 ->
  -1074 <= e + Z.of_nat n + digits q - 53 <= 971 ->
  binary_round 53 1024 s (shl q n) e
  = S754_finite s (shl q (Z.to_nat (53 - digits q)))
      (e + Z.of_nat n + digits q - 53).
Proof.
  intros Hq He. pose proof (digits_pos q) as Hq1.
  unfold binary_round. fold (digits (shl q n)). rewrite digits_shl.
  rewrite fexp_normal by lia. unfold shl_align.
  replace (digits q + Z.of_nat n + e - 53 - e) with (digits q + Z.of_nat n - 53) by lia.
  destruct (digits q + Z.of_nat n - 53) as [|d|d] eqn:Ed.
  - rewrite binary_round_aux_53; [|rewrite digits_shl; lia | lia].
    f_equal; [f_equal|]; lia.
  - unfold binary_round_aux, shr_fexp. cbn [Zdigits2 shr_record_of_loc].
    fold (digits (shl q n)). rewrite digits_shl, fexp_normal by lia.
    replace (digits q + Z.of_nat n + e - 53 - e) with (Zpos d) by lia.
    cbn [shr]. rewrite iter_pos_nat.
    replace (shl q n) with (shl (shl q (n - Pos.to_nat d)) (Pos.to_nat d))
      by (rewrite shl_add; f_equal; lia).
    rewrite shr_exact.
    cbn [shr_m shr_r shr_s loc_of_shr_record round_nearest_even Zdigits2
           shr_record_of_loc].
    fold (digits (shl q (n - Pos.to_nat d))). rewrite digits_shl, fexp_normal by lia.
    replace (digits q + Z.of_nat (n - Pos.to_nat d) + (e + Zpos d) - 53 - (e + Zpos d))
      with 0 by lia.
    cbn [shr shr_m].
    destruct (e + Zpos d <=? 1024 - 53) eqn:E; [|lia].
    f_equal; [f_equal|]; lia.
  - rewrite Pos_iter_shl, shl_add.
    rewrite binary_round_aux_53; [|rewrite digits_shl; lia | lia].
    f_equal; [f_equal|]; lia.
Qed.

Lemma ofInt_pos (p : positive) :
  digits p <= 53 ->
  ofInt (Zpos p) = S754_finite false (shl p (Z.to_nat (53 - digits p))) (digits p - 53).
Proof.
  intros H. pose proof (digits_pos p). unfold ofInt. cbn [binary_normalize].
  change p with (shl p 0) at 1. rewrite binary_round_shl by (simpl; lia).
  f_equal; simpl; lia.
Qed.

Lemma ofInt_one : ofInt 1 = S754_finite false (shl 1%positive 52) (-52).
Proof. reflexivity. Qed.

(** Taking one token from [k] whole tokens, [k] below [2^53]. *)
Lemma sub_one (k : positive) :
  digits k <= 53 -> fsub (ofInt (Zpos k)) (ofInt 1) = ofInt (Zpos k - 1).
Proof.
  intros Hk. pose proof (digits_pos k) as Hk1.
  rewrite (ofInt_pos k Hk), ofInt_one. unfold fsub, SFsub. cbn [cond_Zopp].
  replace (Z.min (digits k - 53) (-52)) with (-52) by lia.
  assert (Hx : fst (shl_align (shl k (Z.to_nat (53 - digits k))) (digits k - 53) (-52))
               = shl k 52).
  { unfold shl_align. destruct (-52 - (digits k - 53)) as [|d|d] eqn:Ed; cbn [fst].
    - f_equal. lia.
    - lia.
    - rewrite Pos_iter_shl, shl_add. f_equal. lia. }
  rewrite Hx. change (fst (shl_align (shl 1%positive 52) (-52) (-52))) with (shl 1%positive 52).
  rewrite !shl_value.
  destruct (Pos.eq_dec k 1%positive) as [-> | Hne]; [reflexivity|].
  assert (Hk2 : 2 <= Zpos k) by lia.
  destruct (Zpos k - 1) as [|j|j] eqn:Ej; try lia.
  replace (Zpos k * 2 ^ Z.of_nat 52 - 1 * 2 ^ Z.of_nat 52) with (Zpos (shl j 52))
    by (rewrite shl_value; lia).
  assert (Hj : digits j <= 53).
  { pose proof (digits_bounds j) as [Hlo _]. pose proof (digits_bounds k) as [_ Hhi].
    destruct (Z_le_gt_dec (digits j) 53) as [H|H]; [exact H|exfalso].
    assert (2 ^ 53 <= 2 ^ (digits j - 1)) by (apply Z.pow_le_mono_r; lia).
    assert (2 ^ digits k <= 2 ^ 53) by (apply Z.pow_le_mono_r; lia).
    lia. }
  pose proof (digits_pos j) as Hj1.
  cbn [binary_normalize]. rewrite binary_round_shl by (simpl; lia).
  rewrite (ofInt_pos j Hj). f_equal; simpl; lia.
Qed.

Lemma digits_le_53 (p : positive) : Zpos p < 2 ^ 53 -> digits p <= 53.
Proof.
  intros H. pose proof (digits_bounds p) as [Hlo _].
  destruct (Z_le_gt_dec (digits p) 53) as [Hd|Hd]; [exact Hd|exfalso].
  assert (2 ^ 53 <= 2 ^ (digits p - 1)) by (apply Z.pow_le_mono_r; lia). lia.
Qed.

Lemma digits_mono (p q : positive) : Zpos p <= Zpos q -> digits p <= digits q.
Proof.
  intros H. pose proof (digits_bounds p) as [Hlo _]. pose proof (digits_bounds q) as [_ Hhi].
  pose proof (digits_pos p). pose proof (digits_pos q).
  destruct (Z_le_gt_dec (digits p) (digits q)) as [Hd|Hd]; [exact Hd|exfalso].
  assert (2 ^ digits q <= 2 ^ (digits p - 1)) by (apply Z.pow_le_mono_r; lia). lia.
Qed.

Lemma ofInt_top : ofInt (2 ^ 53) = S754_finite false (shl 1%positive 52) 1.
Proof. reflexivity. Qed.

(** [tokens--] on a whole count up to [2^53]. *)
Lemma sub_one_whole (k : Z) :
  1 <= k <= 2 ^ 53 -> fsub (ofInt k) (ofInt 1) = ofInt (k - 1).
Proof.
  intros [Hlo Hhi]. destruct (Z.eq_dec k (2 ^ 53)) as [-> | Hne]; [reflexivity|].
  destruct k as [|p|p]; try lia. apply sub_one, digits_le_53. lia.
Qed.

(** [tokens >= 1] on a whole count. *)
Lemma ge_one_whole (k : Z) :
  0 <= k <= 2 ^ 53 -> SFleb (ofInt 1) (ofInt k) = (1 <=? k).
Proof.
  intros [Hlo Hhi]. destruct (Z.eq_dec k (2 ^ 53)) as [-> | Hne]; [reflexivity|].
  destruct k as [|p|p]; try lia; [reflexivity|].
  assert (Hp : digits p <= 53) by (apply digits_le_53; lia).
  pose proof (digits_pos p) as Hp1.
  rewrite (ofInt_pos p Hp), ofInt_one. unfold SFleb, SFcompare.
  replace (1 <=? Zpos p) with true by (symmetry; apply Z.leb_le; lia).
  destruct (Z.compare_spec (-52) (digits p - 53)) as [E|E|E]; [|reflexivity|lia].
  assert (p = 1%positive) as ->.
  { pose proof (digits_bounds p) as [_ H]. replace (digits p) with 1 in H by lia.
    change (2 ^ 1) with 2 in H. lia. }
  reflexivity.
Qed.

(** The clamp test [tokens > maxTokens] on whole counts. *)
Lemma not_gt_whole (c k : Z) :
  0 <= k <= c -> c <= 2 ^ 53 -> SFltb (ofInt c) (ofInt k) = false.
Proof.
  intros [Hlo Hkc] Hhi.
  destruct k as [|q|q]; try lia.
  { destruct c as [|p|p]; try lia; [reflexivity|].
    destruct (Z.eq_dec (Zpos p) (2 ^ 53)) as [-> | Hne]; [reflexivity|].
    rewrite ofInt_pos by (apply digits_le_53; lia). reflexivity. }
  destruct c as [|p|p]; try lia.
  destruct (Z.eq_dec (Zpos q) (2 ^ 53)) as [Eq | Hq].
  { assert (Zpos p = 2 ^ 53) as -> by lia. rewrite Eq. reflexivity. }
  assert (Hdq : digits q <= 53) by (apply digits_le_53; lia).
  pose proof (digits_pos q) as Hq1.
  rewrite (ofInt_pos q Hdq).
  destruct (Z.eq_dec (Zpos p) (2 ^ 53)) as [-> | Hp].
  { rewrite ofInt_top. unfold SFltb, SFcompare.
    destruct (Z.compare_spec 1 (digits q - 53)) as [E|E|E]; first [lia | reflexivity]. }
  assert (Hdp : digits p <= 53) by (apply digits_le_53; lia).
  rewrite (ofInt_pos p Hdp). pose proof (digits_mono q p Hkc) as Hmono.
  unfold SFltb, SFcompare.
  destruct (Z.compare_spec (digits p - 53) (digits q - 53)) as [E|E|E];
    [|lia|reflexivity].
  assert (Ed : digits p = digits q) by lia. rewrite Ed.
  change (Pos.compare_cont Eq ?a ?b) with (Pos.compare a b).
  destruct (Pos.compare_spec (shl p (Z.to_nat (53 - digits q)))
              (shl q (Z.to_nat (53 - digits q)))) as [C|C|C]; try reflexivity.
  exfalso. apply Pos2Z.pos_lt_pos in C. rewrite !shl_value in C.
  assert (0 < 2 ^ Z.of_nat (Z.to_nat (53 - digits q))) by (apply Z.pow_pos_nonneg; lia).
  nia.
Qed.

Lemma add_zero_whole (k : Z) (s : bool) :
  0 <= k <= 2 ^ 53 -> fadd (ofInt k) (S754_zero s) = ofInt k.
Proof.
  intros [Hlo Hhi]. destruct (Z.eq_dec k (2 ^ 53)) as [-> | Hne]; [reflexivity|].
  destruct k as [|p|p]; try lia.
  - destruct s; reflexivity.
  - rewrite ofInt_pos by (apply digits_le_53; lia). reflexivity.
Qed.

(** Rounding keeps the sign: a mantissa that is not negative stays so. *)
Lemma shr_1_nonneg (mrs : shr_record) : 0 <= shr_m mrs -> 0 <= shr_m (shr_1 mrs).
Proof. destruct mrs as [[|[p|p|]|[p|p|]] r s]; simpl; lia. Qed.

Lemma iter_shr_1_nonneg (n : nat) (mrs : shr_record) :
  0 <= shr_m mrs -> 0 <= shr_m (Nat.iter n shr_1 mrs).
Proof. intros H. induction n as [|n IH]; [exact H|]. simpl. now apply shr_1_nonneg. Qed.

Lemma shr_fexp_nonneg (m e : Z) (l : location) :
  0 <= m -> 0 <= shr_m (fst (shr_fexp 53 1024 m e l)).
Proof.
  intros H. unfold shr_fexp, shr.
  assert (H0 : 0 <= shr_m (shr_record_of_loc m l)) by (destruct l as [|[]]; exact H).
  destruct (fexp 53 1024 (Zdigits2 m + e) - e); cbn [fst]; try exact H0.
  rewrite iter_pos_nat. now apply iter_shr_1_nonneg.
Qed.

Lemma round_nearest_even_nonneg (m : Z) (l : location) :
  0 <= m -> 0 <= round_nearest_even m l.
Proof. intros H. destruct l as [|[]]; simpl; try destruct (Z.even m); lia. Qed.

(** [float64(n) <= 0] for every [n] that is not positive. *)
Lemma ofInt_nonpos (n : Z) : n <= 0 -> SFleb (ofInt n) (ofInt 0) = true.
Proof.
  intros H. destruct n as [|p|p]; try lia; [reflexivity|].
  unfold ofInt. cbn [binary_normalize]. unfold binary_round.
  destruct (shl_align p 0 _) as [mz ez]. unfold binary_round_aux.
  pose proof (shr_fexp_nonneg (Zpos mz) ez loc_Exact ltac:(lia)) as H1.
  destruct (shr_fexp 53 1024 (Zpos mz) ez loc_Exact) as [mrs1 e1]. cbn [fst] in H1.
  pose proof (shr_fexp_nonneg _ e1 loc_Exact
                (round_nearest_even_nonneg _ (loc_of_shr_record mrs1) H1)) as H2.
  destruct (shr_fexp 53 1024 _ e1 loc_Exact) as [mrs2 e2]. cbn [fst] in H2.
  destruct (shr_m mrs2) as [|m|m]; try lia; [reflexivity|].
  destruct (e2 <=? 1024 - 53); reflexivity.
Qed.

Lemma ofInt_pos_gt (n : Z) : 1 <= n <= 2 ^ 53 -> SFleb (ofInt n) (ofInt 0) = false.
Proof.
  intros [Hlo Hhi]. destruct (Z.eq_dec n (2 ^ 53)) as [-> | Hne]; [reflexivity|].
  destruct n as [|p|p]; try lia.
  rewrite ofInt_pos by (apply digits_le_53; lia). reflexivity.
Qed.

Lemma ltb_irrefl (x : float64) : SFltb x x = false.
Proof.
  unfold SFltb, SFcompare. destruct x as [s|s| |s m e]; try destruct s; try reflexivity;
    now rewrite Z.compare_refl, Pos.compare_cont_refl.
Qed.

(** After a refill the count never exceeds the capacity. *)
Lemma refill_never_exceeds (later : Z) (r : RateLimiter) :
  SFltb (maxTokens (refill later r)) (tokens (refill later r)) = false.
Proof.
  unfold refill. cbn [tokens maxTokens].
  destruct (SFltb (maxTokens r)
              (fadd (tokens r) (fmul (Seconds (Sub later (lastRefill r))) (refillRate r))))
    eqn:E; [apply ltb_irrefl | exact E].
Qed.

Lemma Seconds_idle (now : Z) : Seconds (Sub now now) = S754_zero false.
Proof. unfold Sub. rewrite Z.sub_diag. reflexivity. Qed.

(** With no time elapsed a refill leaves the limiter as it is. *)
Lemma refill_idle (now C k : Z) (r : RateLimiter) :
  Holds now C k r -> 0 <= k <= C -> C <= 2 ^ 53 -> refill now r = r.
Proof.
  intros (Hen & Hlast & Htok & Hmax & Hrate) Hk HC.
  destruct r as [t m rate last en]. cbn [enabled lastRefill tokens maxTokens refillRate] in *.
  subst. unfold refill. cbn [enabled lastRefill tokens maxTokens refillRate].
  rewrite Seconds_idle.
  assert (Hz : exists s, fmul (S754_zero false) rate = S754_zero s).
  { destruct rate as [s|s| |s m e]; try discriminate; eexists; reflexivity. }
  destruct Hz as [s ->]. rewrite add_zero_whole by lia.
  now rewrite not_gt_whole by lia.
Qed.

Lemma Allow_whole (now C k : Z) (r : RateLimiter) :
  Holds now C k r -> 0 <= k <= C -> C <= 2 ^ 53 ->
  fst (Allow now r) = (1 <=? k) /\
  Holds now C (if 1 <=? k then k - 1 else k) (snd (Allow now r)).
Proof.
  intros H Hk HC. pose proof H as (Hen & Hlast & Htok & Hmax & Hrate).
  unfold Allow. rewrite Hen. cbn [negb]. rewrite (refill_idle now C k r H Hk HC).
  rewrite Htok, ge_one_whole by lia.
  destruct (1 <=? k) eqn:E; cbn [fst snd]; [|split; [reflexivity | exact H]].
  split; [reflexivity|]. apply Z.leb_le in E.
  unfold Holds. cbn [enabled lastRefill tokens maxTokens refillRate].
  rewrite sub_one_whole by lia. auto.
Qed.

Lemma AllowTimes64_S (now : Z) (n : nat) (r : RateLimiter) :
  fst (AllowTimes now (S n) r) =
  fst (Allow now r) :: fst (AllowTimes now n (snd (Allow now r))).
Proof.
  simpl. destruct (Allow now r) as [ok r1]. cbn [fst snd].
  destruct (AllowTimes now n r1) as [oks r2]. reflexivity.
Qed.

Lemma AllowTimes_whole (now C : Z) (k : nat) (r : RateLimiter) :
  Holds now C (Z.of_nat k) r -> Z.of_nat k <= C -> C <= 2 ^ 53 ->
  fst (AllowTimes now (S k) r) = repeat true k ++ [false].
Proof.
  revert r. induction k as [|k IH]; intros r H Hk HC; rewrite AllowTimes64_S;
    destruct (Allow_whole now C _ r H ltac:(lia) HC) as [Hok Hnext]; rewrite Hok.
  - reflexivity.
  - replace (1 <=? Z.of_nat (S k)) with true in * by (symmetry; apply Z.leb_le; lia).
    replace (Z.of_nat (S k) - 1) with (Z.of_nat k) in Hnext by lia.
    rewrite (IH _ Hnext) by lia. reflexivity.
Qed.

Lemma NewRateLimiter_holds (cfg : RateLimitConfig) (now C : Z) :
  Enabled cfg = true ->
  RequestsPerSec cfg <> S754_nan -> RequestsPerSec cfg <> S754_infinity false ->
  C = (if BurstSize cfg <=? 0 then 200 else BurstSize cfg) -> C <= 2 ^ 53 ->
  Holds now C C (NewRateLimiter cfg now).
Proof.
  intros Hen Hnan Hinf HC Hhi. unfold Holds, NewRateLimiter.
  cbn [enabled lastRefill tokens maxTokens refillRate].
  assert (Hmax : (if SFleb (ofInt (BurstSize cfg)) (ofInt 0) then ofInt 200
                  else ofInt (BurstSize cfg)) = ofInt C).
  { destruct (BurstSize cfg <=? 0) eqn:E.
    - apply Z.leb_le in E. rewrite ofInt_nonpos by exact E. now subst C.
    - apply Z.leb_gt in E. rewrite ofInt_pos_gt by lia. now subst C. }
  rewrite Hmax. repeat split; try assumption.
  destruct (RequestsPerSec cfg) as [s|[|]| |[|] m e]; try reflexivity; congruence.
Qed.

(** C7 (amended). An enabled limiter whose refill rate is neither NaN
    nor plus infinity, built with capacity [C] (the configured burst
    size, or 200 when that is not positive) of at most [2^53], allows
    exactly the first [C] of [C + 1] consecutive [Allow] calls made with
    no time elapsed, and denies the last; and after a refill, at any
    clock reading and in any state, the token count does not exceed the
    capacity. *)
Theorem burst_then_deny (cfg : RateLimitConfig) (now : Z) (C : nat) :
  Enabled cfg = true ->
  RequestsPerSec cfg <> S754_nan -> RequestsPerSec cfg <> S754_infinity false ->
  Z.of_nat C = (if BurstSize cfg <=? 0 then 200 else BurstSize cfg) ->
  Z.of_nat C <= 2 ^ 53 ->
  fst (AllowTimes now (S C) (NewRateLimiter cfg now)) = repeat true C ++ [false] /\
  maxTokens (NewRateLimiter cfg now) = ofInt (Z.of_nat C) /\
  forall (r : RateLimiter) (later : Z),
    SFltb (maxTokens (refill later r)) (tokens (refill later r)) = false.
Proof.
  intros Hen Hnan Hinf HC Hhi.
  pose proof (NewRateLimiter_holds cfg now _ Hen Hnan Hinf HC Hhi) as H.
  split; [|split].
  - now apply (AllowTimes_whole now (Z.of_nat C)).
  - now destruct H as (_ & _ & _ & Hmax & _).
  - intros r later. apply refill_never_exceeds.
Qed.

Lemma burst_then_deny_witness :
  fst (AllowTimes 0 6
         (NewRateLimiter {| Enabled := true; RequestsPerSec := ofInt 10;
                            BurstSize := 5 |} 0))
  = [true; true; true; true; true; false].
Proof.
  refine (proj1 (burst_then_deny
                   {| Enabled := true; RequestsPerSec := ofInt 10; BurstSize := 5 |}
                   0 5 _ _ _ _ _)).
  - reflexivity.
  - discriminate.
  - discriminate.
  - reflexivity.
  - discriminate.
Defined.

(** C7 (counterexample). With a burst size of [2^54] the subtraction
    [tokens--] rounds back to [2^54]: a call is granted and leaves the
    limiter exactly as it was, so every further call is granted too, the
    call after the first [2^54] included. And with a refill rate of plus
    infinity the first refill turns the count into a NaN ([0 * Inf]), so
    a limiter of capacity 5 denies its first call. *)
Lemma burst_unbounded_above_2_53 :
  (let r := NewRateLimiter {| Enabled := true; RequestsPerSec := ofInt 100;
                              BurstSize := 2 ^ 54 |} 0 in
   maxTokens r = ofInt (2 ^ 54) /\
   Allow 0 r = (true, r) /\
   forall n, fst (AllowTimes 0 n r) = repeat true n) /\
  fst (Allow 0 (NewRateLimiter {| Enabled := true;
                                  RequestsPerSec := S754_infinity false;
                                  BurstSize := 5 |} 0)) = false.
Proof.
  split; [|vm_compute; reflexivity].
  cbv zeta.
  assert (Hfix : Allow 0 (NewRateLimiter {| Enabled := true; RequestsPerSec := ofInt 100;
                                            BurstSize := 2 ^ 54 |} 0)
                 = (true, NewRateLimiter {| Enabled := true; RequestsPerSec := ofInt 100;
                                            BurstSize := 2 ^ 54 |} 0))
    by (vm_compute; reflexivity).
  split; [vm_compute; reflexivity|]. split; [exact Hfix|].
  intros n. induction n as [|n IH]; [reflexivity|].
  rewrite AllowTimes64_S, Hfix. cbn [fst snd]. now rewrite IH.
Qed.

End RateLimit64Facts.

(** ** Audit logger *)

Module AuditLogFacts.
Import AuditLog.

Lemma marshals_no_details (event : Event) :
  Details event = ∅ -> marshals event = true.
Proof. intros H. unfold marshals. rewrite H, map_to_list_empty. reflexivity. Qed.

Lemma stamp_Details (now : Q) (event : Event) :
  Details (stamp now event) = Details event.
Proof. unfold stamp. destruct (Timestamp event); reflexivity. Qed.

Lemma stamp_EvLevel (now : Q) (event : Event) :
  EvLevel (stamp now event) = EvLevel event.
Proof. unfold stamp. destruct (Timestamp event); reflexivity. Qed.

(** An enabled logger records an event without details: one record on the
    sink, one push on the ring. *)
Lemma Log_enabled (now : Q) (event : Event) (l : Logger) :
  enabled l = true -> Details event = ∅ ->
  Log now event l =
  {| sink := sink l ++ [stamp now event]; enabled := true;
     minLevel := minLevel l; buffer := push (stamp now event) l;
     bufSize := bufSize l |}.
Proof.
  intros Hen Hd. unfold Log. rewrite Hen. simpl.
  rewrite marshals_no_details by (now rewrite stamp_Details).
  reflexivity.
Qed.

Lemma Log_disabled (now : Q) (event : Event) (l : Logger) :
  enabled l = false -> Log now event l = l.
Proof. intros Hen. unfold Log. now rewrite Hen. Qed.

Lemma Log_bufSize (now : Q) (event : Event) (l : Logger) :
  bufSize (Log now event l) = bufSize l.
Proof.
  unfold Log. destruct (enabled l); simpl; [|reflexivity].
  destruct (marshals _); reflexivity.
Qed.

Lemma push_below (event : Event) (l : Logger) :
  Z.of_nat (length (buffer l)) < bufSize l ->
  Z.of_nat (length (push event l)) < bufSize l.
Proof.
  intros H. unfold push.
  assert (Hlen : length (buffer l ++ [event]) = S (length (buffer l)))
    by (rewrite length_app; simpl; lia).
  destruct (bufSize l <=? _) eqn:E.
  - destruct (buffer l ++ [event]) as [|e rest] eqn:Happ; simpl in *; lia.
  - apply Z.leb_gt in E. exact E.
Qed.

(** The ring never holds [bufSize] events: the trimming test fires as soon
    as the length reaches [bufSize]. *)
Lemma Log_below (now : Q) (event : Event) (l : Logger) :
  Z.of_nat (length (buffer l)) < bufSize l ->
  Z.of_nat (length (buffer (Log now event l))) < bufSize (Log now event l).
Proof.
  intros H. rewrite Log_bufSize. unfold Log.
  destruct (enabled l); simpl; [|exact H].
  destruct (marshals _); simpl; [|exact H].
  now apply push_below.
Qed.

Lemma LogAll_below (now : Q) (events : list Event) (l : Logger) :
  Z.of_nat (length (buffer l)) < bufSize l ->
  Z.of_nat (length (buffer (LogAll now events l))) < bufSize (LogAll now events l).
Proof.
  revert l. induction events as [|e events IH]; intros l H; simpl; [exact H|].
  apply IH. now apply Log_below.
Qed.

Lemma NewLogger_below (fileOpens : bool) (cfg : Config) (l : Logger) :
  NewLogger fileOpens cfg = Some l ->
  Z.of_nat (length (buffer l)) < bufSize l /\
  bufSize l = (if BufferSize cfg <=? 0 then 100 else BufferSize cfg).
Proof.
  unfold NewLogger. destruct (_ && _); [discriminate|].
  intros [= <-]. simpl. destruct (BufferSize cfg <=? 0) eqn:E; split;
    try reflexivity; try apply Z.leb_gt in E; lia.
Qed.




(** For a logger built by [NewLogger] with ring capacity [N], and any
    sequence of logged events, [GetRecentEvents N] returns fewer than [N]
    events. *)
Lemma recent_events_fewer_than_capacity (fileOpens : bool) (cfg : Config)
    (l : Logger) (now : Q) (events : list Event) :
  NewLogger fileOpens cfg = Some l ->
  exists recent,
    GetRecentEvents (bufSize l) (LogAll now events l) = Some recent /\
    Z.of_nat (length recent) < bufSize l.
Proof.
  intros Hnew. destruct (NewLogger_below _ _ _ Hnew) as [Hbelow _].
  pose proof (LogAll_below now events l Hbelow) as H.
  assert (Hsize : bufSize (LogAll now events l) = bufSize l).
  { clear. revert l. induction events as [|e events IH]; intros l; simpl;
      [reflexivity|]. rewrite IH. apply Log_bufSize. }
  rewrite Hsize in H. unfold GetRecentEvents.
  set (b := buffer (LogAll now events l)) in *.
  replace (Z.of_nat (length b) <? bufSize l) with true
    by (symmetry; apply Z.ltb_lt; exact H).
  replace (Z.of_nat (length b) <? 0) with false
    by (symmetry; apply Z.ltb_ge; lia).
  eexists. split; [reflexivity|].
  rewrite Z.sub_diag. simpl. exact H.
Qed.

(** C3 (evaluation at the failing input). A logger with ring capacity 3
    that has logged the four events [a], [b], [c], [d] answers
    [GetRecentEvents 3] with the two events [c], [d]: the event [b], one of
    the last three, is gone. *)
Theorem ring_drops_one_too_many :
  exists l,
    Sample.ring3 = Some l /\ bufSize l = 3 /\
    GetRecentEvents 3
      (LogAll 0 [Sample.op "a"; Sample.op "b"; Sample.op "c"; Sample.op "d"] l)
    = Some [stamp 0 (Sample.op "c"); stamp 0 (Sample.op "d")].
Proof.
  eexists. split; [reflexivity|]. split; [reflexivity|].
  vm_compute. reflexivity.
Qed.

End AuditLogFacts.

(** ** Dispatcher *)

Module McpFacts.
Import Mcp.

Section Dispatch.
Context (codec : Codec).

Lemma rateGate_eq (now : Q) (name : string) (s : Server) :
  rateGate now name s =
  if isWriteOperation name then
    (fst (RateLimit.Allow now (rateLimiter s)),
     withRateLimiter (snd (RateLimit.Allow now (rateLimiter s))) s)
  else (true, s).
Proof.
  unfold rateGate. destruct (isWriteOperation name); [|reflexivity].
  now destruct (RateLimit.Allow now (rateLimiter s)).
Qed.

(** The outcome of [handleToolsCall] once the parameters are decoded. *)
Lemma handleToolsCall_decoded (now : Q) (params : RawMessage) (s : Server)
    (callParams : ToolsCallParams) :
  Unmarshal (decodeToolsCallParams codec) params = inl callParams ->
  handleToolsCall codec now params s =
  let name := Name callParams in
  let s1 := snd (rateGate now name s) in
  if fst (rateGate now name s) then
    let outcome := fst (toolsCall name (Arguments callParams) s1) in
    let s2 := snd (toolsCall name (Arguments callParams) s1) in
    let duration := toolElapsed outcome in
    match toolReturn outcome with
    | inr e =>
        (inl {| Content := [textBlock ("Error: " +:+ e)]; IsError := true |},
         auditLog (now + duration)%Q (callEvent name duration (Some e)) s2)
    | inl resultJSON =>
        (inl {| Content := [textBlock resultJSON]; IsError := false |},
         auditLog (now + duration)%Q (callEvent name duration None) s2)
    end
  else (inl rateLimitResult, auditLog now (rateLimitEvent name) s1).
Proof.
  intros Hdec. unfold handleToolsCall. rewrite Hdec. cbv zeta.
  destruct (rateGate now (Name callParams) s) as [passed s1]. cbn [fst snd].
  destruct passed; cbn [negb]; [|reflexivity].
  destruct (toolsCall (Name callParams) (Arguments callParams) s1) as [outcome s2].
  cbn [fst snd]. destruct (toolReturn outcome); reflexivity.
Qed.

Lemma handleMessage_decoded (now : Q) (message : string) (s : Server) (req : Request) :
  decodeRequest codec message = inl req -> JSONRPC req = "2.0" ->
  handleMessage codec now message s =
  let routed := fst (routeMethod codec now (Method req) (Params req) s) in
  let s1 := snd (routeMethod codec now (Method req) (Params req) s) in
  match snd routed with
  | Some e =>
      (Some {| RespJSONRPC := "2.0"; RespID := ID req; Result := None;
               RespError := Some e |}, s1)
  | None =>
      (Some {| RespJSONRPC := "2.0"; RespID := ID req; Result := fst routed;
               RespError := None |}, s1)
  end.
Proof.
  intros Hdec Hver. unfold handleMessage. rewrite Hdec, Hver. cbn [String.eqb negb].
  change (String.eqb "2.0" "2.0") with true. cbn [negb]. cbv zeta.
  destruct (routeMethod codec now (Method req) (Params req) s) as [[result err] s1].
  reflexivity.
Qed.

(** [handleMessage] never returns the nil response, and the response
    carries the id of the decoded request. *)
Lemma handleMessage_responds (now : Q) (message : string) (s : Server) :
  exists resp, fst (handleMessage codec now message s) = Some resp.
Proof.
  unfold handleMessage. destruct (decodeRequest codec message) as [req|err];
    [|eexists; reflexivity].
  destruct (negb _); [eexists; reflexivity|].
  destruct (routeMethod codec now (Method req) (Params req) s) as [[result err] s1].
  destruct err; eexists; reflexivity.
Qed.

Lemma handleMessage_echoes_id (now : Q) (message : string) (s : Server) (req : Request) :
  decodeRequest codec message = inl req ->
  exists resp, fst (handleMessage codec now message s) = Some resp /\
               RespID resp = ID req.
Proof.
  intros Hdec. unfold handleMessage. rewrite Hdec.
  destruct (negb _); [eexists; split; reflexivity|].
  destruct (routeMethod codec now (Method req) (Params req) s) as [[result err] s1].
  destruct err; eexists; split; reflexivity.
Qed.

Lemma routed_one {A : Type} (wrap : A -> ResultValue) (r : A + Error) :
  (fst (routed wrap r) <> None /\ snd (routed wrap r) = None) \/
  (fst (routed wrap r) = None /\ snd (routed wrap r) <> None).
Proof. destruct r; [left | right]; simpl; split; congruence. Qed.

(** What [routeMethod] returns: a result and no error, an error and no
    result, or, on the two lifecycle methods only, neither. *)
Lemma routeMethod_shape (now : Q) (method : string) (params : RawMessage) (s : Server) :
  let r := fst (routeMethod codec now method params s) in
  if String.eqb method "initialized" || String.eqb method "shutdown"
  then r = (None, None)
  else (fst r <> None /\ snd r = None) \/ (fst r = None /\ snd r <> None).
Proof.
  unfold routeMethod.
  destruct (String.eqb method "initialize") eqn:E0.
  { apply String.eqb_eq in E0. subst method. simpl. apply routed_one. }
  destruct (String.eqb method "initialized") eqn:E1; [reflexivity|].
  destruct (String.eqb method "shutdown") eqn:E2; [reflexivity|].
  cbn [orb].
  destruct (String.eqb method "tools/list"); [left; simpl; split; congruence|].
  destruct (String.eqb method "tools/call").
  { destruct (handleToolsCall codec now params s) as [r s1]. apply routed_one. }
  destruct (String.eqb method "resources/list"); [left; simpl; split; congruence|].
  destruct (String.eqb method "resources/read"); [apply routed_one|].
  destruct (String.eqb method "prompts/list"); [left; simpl; split; congruence|].
  right. simpl. split; congruence.
Qed.

(** No response carries both members; a response to a well-formed request
    carries neither exactly on [initialized] and [shutdown]. *)
Lemma response_members (now : Q) (message : string) (s : Server) (req : Request)
    (resp : Response) :
  decodeRequest codec message = inl req -> JSONRPC req = "2.0" ->
  fst (handleMessage codec now message s) = Some resp ->
  (Result resp = None \/ RespError resp = None) /\
  (Result resp = None /\ RespError resp = None <->
   Method req = "initialized" \/ Method req = "shutdown").
Proof.
  intros Hdec Hver. rewrite (handleMessage_decoded _ _ _ _ Hdec Hver). cbv zeta.
  pose proof (routeMethod_shape now (Method req) (Params req) s) as Hshape.
  cbv zeta in Hshape.
  destruct (fst (routeMethod codec now (Method req) (Params req) s)) as [result err].
  cbn [fst snd] in *.
  assert (Hlife : String.eqb (Method req) "initialized" || String.eqb (Method req) "shutdown" = true
                  <-> Method req = "initialized" \/ Method req = "shutdown")
    by (rewrite orb_true_iff, !String.eqb_eq; tauto).
  destruct (_ || _).
  - injection Hshape as -> ->. intros [= <-]. simpl.
    split; [auto|]. split; [intros _; now apply Hlife | auto].
  - destruct err as [e|]; intros [= <-]; simpl.
    + split; [auto|]. split; [intros [_ H]; discriminate|].
      intros H. apply Hlife in H. discriminate.
    + split; [auto|]. split.
      * intros [Hr _]. destruct Hshape as [[H _] | [_ H]]; congruence.
      * intros H. apply Hlife in H. discriminate.
Qed.

End Dispatch.

(** C1 (evaluation at the failing input). The notification
    [{"jsonrpc":"2.0","method":"initialized"}], whose id is absent, is
    answered: [handleMessage] returns a response, with no id, no result
    and no error, which every transport then writes out. *)
Theorem notification_is_answered :
  decodeRequest Sample.codec Sample.notifyInitialized =
    inl {| JSONRPC := "2.0"; ID := None; Method := "initialized"; Params := None |} /\
  fst (handleMessage Sample.codec 0 Sample.notifyInitialized (Sample.server true)) =
    Some {| RespJSONRPC := "2.0"; RespID := None; Result := None; RespError := None |}.
Proof. split; reflexivity. Qed.

(** C5 (evaluation at the failing input). The request
    [{"jsonrpc":"2.0","id":1,"method":"shutdown"}] is answered by a
    response that has neither a result nor an error. *)
Theorem shutdown_response_has_neither :
  fst (handleMessage Sample.codec 0 Sample.requestShutdown (Sample.server true)) =
    Some {| RespJSONRPC := "2.0"; RespID := Some (IDNumber 1); Result := None;
            RespError := None |}.
Proof. reflexivity. Qed.

Lemma isWriteOperation_iff (name : string) :
  isWriteOperation name = true <->
  name = "put_record" \/ name = "delete_record" \/ name = "batch_write" \/
  name = "operate".
Proof.
  split.
  - unfold isWriteOperation, writeOps. cbn [list_to_map foldr uncurry fst snd].
    rewrite !lookup_insert, lookup_empty.
    repeat case_decide; simpl; intros Hw; try discriminate; intuition congruence.
  - intros [-> | [-> | [-> | ->]]]; reflexivity.
Qed.

Lemma isAdminOperation_iff (name : string) :
  isAdminOperation name = true <->
  name = "create_index" \/ name = "drop_index" \/ name = "truncate_set" \/
  name = "register_udf" \/ name = "remove_udf".
Proof.
  split.
  - unfold isAdminOperation, adminOps. cbn [list_to_map foldr uncurry fst snd].
    rewrite !lookup_insert, lookup_empty.
    repeat case_decide; simpl; intros Hw; try discriminate; intuition congruence.
  - intros [-> | [-> | [-> | [-> | ->]]]]; reflexivity.
Qed.

(** No administrative operation is classified as a write operation. *)
Lemma admin_not_write (name : string) :
  isAdminOperation name = true -> isWriteOperation name = false.
Proof.
  rewrite isAdminOperation_iff.
  intros [-> | [-> | [-> | [-> | ->]]]]; reflexivity.
Qed.

Lemma auditLog_rateLimiter (now : Q) (event : AuditLog.Event) (s : Server) :
  rateLimiter (auditLog now event s) = rateLimiter s.
Proof. unfold auditLog. destruct (auditLogger s); reflexivity. Qed.

Lemma auditLog_callLog (now : Q) (event : AuditLog.Event) (s : Server) :
  callLog (auditLog now event s) = callLog s.
Proof. unfold auditLog. destruct (auditLogger s); reflexivity. Qed.

Lemma toolsCall_rateLimiter (name : string) (args : RawMessage) (s : Server) :
  rateLimiter (snd (toolsCall name args s)) = rateLimiter s.
Proof. unfold toolsCall. destruct (tools s !! name); reflexivity. Qed.

Lemma toolsCall_callLog (name : string) (args : RawMessage) (s : Server) :
  callLog (snd (toolsCall name args s)) = callLog s ++ [(name, args)].
Proof. unfold toolsCall. destruct (tools s !! name); reflexivity. Qed.

Section Pipeline.
Context (codec : Codec).

(** The limiter and the call log after [handleToolsCall], by whether the
    call passed the gate. *)
Lemma handleToolsCall_effects (now : Q) (params : RawMessage) (s : Server)
    (callParams : ToolsCallParams) :
  Unmarshal (decodeToolsCallParams codec) params = inl callParams ->
  let name := Name callParams in
  let out := handleToolsCall codec now params s in
  rateLimiter (snd out) = rateLimiter (snd (rateGate now name s)) /\
  (fst (rateGate now name s) = false ->
     fst out = inl rateLimitResult /\ callLog (snd out) = callLog s) /\
  (fst (rateGate now name s) = true ->
     callLog (snd out) = callLog s ++ [(name, Arguments callParams)]).
Proof.
  intros Hdec. cbv zeta. rewrite (handleToolsCall_decoded codec _ _ _ _ Hdec). cbv zeta.
  assert (Hlog : callLog (snd (rateGate now (Name callParams) s)) = callLog s).
  { rewrite rateGate_eq. now destruct (isWriteOperation _). }
  destruct (fst (rateGate now (Name callParams) s)).
  - destruct (toolReturn _); cbn [fst snd];
      rewrite auditLog_rateLimiter, toolsCall_rateLimiter, auditLog_callLog,
        toolsCall_callLog, Hlog;
      (split; [reflexivity | split; [discriminate | reflexivity]]).
  - cbn [fst snd]. rewrite auditLog_rateLimiter, auditLog_callLog, Hlog.
    split; [reflexivity | split; [auto | discriminate]].
Qed.

(** C4 (amended). For a tool classified as a write operation, which is
    one of [put_record], [delete_record], [batch_write] and [operate],
    [handleToolsCall] passes the limiter through [Allow] before the
    registry is reached, and on denial returns the tool-level rate-limit
    error without calling the registry. Every other tool, the
    administrative operations among them, reaches the registry with the
    limiter untouched. *)
Theorem write_calls_are_rate_limited (now : Q) (params : RawMessage) (s : Server)
    (callParams : ToolsCallParams) :
  Unmarshal (decodeToolsCallParams codec) params = inl callParams ->
  let name := Name callParams in
  let out := handleToolsCall codec now params s in
  (isWriteOperation name = true <->
     name = "put_record" \/ name = "delete_record" \/ name = "batch_write" \/
     name = "operate") /\
  (isWriteOperation name = true ->
     rateLimiter (snd out) = snd (RateLimit.Allow now (rateLimiter s)) /\
     (fst (RateLimit.Allow now (rateLimiter s)) = false ->
        fst out =
          inl {| Content :=
                   [ {| BlockType := "text";
                        Text := "Error: rate limit exceeded, please try again later" |} ];
                 IsError := true |} /\
        callLog (snd out) = callLog s) /\
     (fst (RateLimit.Allow now (rateLimiter s)) = true ->
        callLog (snd out) = callLog s ++ [(name, Arguments callParams)])) /\
  (isWriteOperation name = false ->
     rateLimiter (snd out) = rateLimiter s /\
     callLog (snd out) = callLog s ++ [(name, Arguments callParams)]).
Proof.
  intros Hdec name out.
  destruct (handleToolsCall_effects now params s callParams Hdec) as (Hrl & Hdeny & Hcall).
  fold name out in Hrl, Hdeny, Hcall. rewrite rateGate_eq in Hrl, Hdeny, Hcall.
  split; [apply isWriteOperation_iff|]. split; intros Hw; rewrite Hw in *.
  - cbn [fst snd] in *. split; [exact Hrl|]. split; [exact Hdeny | exact Hcall].
  - cbn [fst snd] in *. split; [exact Hrl | now apply Hcall].
Qed.

End Pipeline.

Lemma write_calls_are_rate_limited_witness :
  let out := handleToolsCall Sample.codec 0 (Some "{'name':'put_record'}")
               (Sample.exhausted true) in
  fst out = inl rateLimitResult /\
  callLog (snd out) = callLog (Sample.exhausted true).
Proof.
  intros out.
  destruct (write_calls_are_rate_limited Sample.codec 0
              (Some "{'name':'put_record'}") (Sample.exhausted true)
              {| Name := "put_record"; Arguments := None |} eq_refl)
    as (_ & Hwrite & _).
  destruct (Hwrite eq_refl) as (_ & Hdeny & _).
  exact (Hdeny eq_refl).
Defined.

(** C4 (counterexample). [create_index], an administrative operation, is
    submitted while the limiter has no token left: the registry is called
    and the call succeeds. *)
Lemma admin_call_bypasses_limiter :
  isAdminOperation "create_index" = true /\
  fst (RateLimit.Allow 0 (rateLimiter (Sample.exhausted true))) = false /\
  fst (handleMessage Sample.codec 0 Sample.callCreateIndex (Sample.exhausted true)) =
    Some {| RespJSONRPC := "2.0"; RespID := Some (IDNumber 3);
            Result := Some (ResultToolsCall
                              {| Content := [ {| BlockType := "text"; Text := "{}" |} ];
                                 IsError := false |});
            RespError := None |} /\
  callLog (snd (handleMessage Sample.codec 0 Sample.callCreateIndex
                  (Sample.exhausted true))) =
    callLog (Sample.exhausted true) ++ [("create_index", None)].
Proof. repeat split; reflexivity. Qed.

Section Failures.
Context (codec : Codec).

Lemma routeMethod_tools_call (now : Q) (params : RawMessage) (s : Server) :
  routeMethod codec now "tools/call" params s =
  (routed ResultToolsCall (fst (handleToolsCall codec now params s)),
   snd (handleToolsCall codec now params s)).
Proof.
  unfold routeMethod. cbn [String.eqb Ascii.eqb Bool.eqb].
  now destruct (handleToolsCall codec now params s).
Qed.

Lemma routeMethod_resources_read (now : Q) (params : RawMessage) (s : Server) :
  routeMethod codec now "resources/read" params s =
  (routed ResultResourcesRead (handleResourcesRead codec params s), s).
Proof. reflexivity. Qed.

(** C2 (amended). A [tools/call] whose tool fails downstream is answered
    by a result that is flagged as an error and carries the downstream
    message, never by a protocol-level error; a [resources/read] whose read
    fails is answered by the protocol-level error [InternalError] (-32603)
    with the message "Resource read failed" and the downstream message as
    its data. *)
Theorem downstream_failure_surfacing (now : Q) (message : string) (s : Server)
    (req : Request) :
  decodeRequest codec message = inl req -> JSONRPC req = "2.0" ->
  (forall callParams e,
     Method req = "tools/call" ->
     Unmarshal (decodeToolsCallParams codec) (Params req) = inl callParams ->
     fst (rateGate now (Name callParams) s) = true ->
     toolReturn (fst (toolsCall (Name callParams) (Arguments callParams)
                        (snd (rateGate now (Name callParams) s)))) = inr e ->
     fst (handleMessage codec now message s) =
       Some {| RespJSONRPC := "2.0"; RespID := ID req;
               Result := Some (ResultToolsCall
                                 {| Content := [ {| BlockType := "text";
                                                    Text := "Error: " +:+ e |} ];
                                    IsError := true |});
               RespError := None |}) /\
  (forall readParams e,
     Method req = "resources/read" ->
     Unmarshal (decodeResourcesReadParams codec) (Params req) = inl readParams ->
     resourcesRead (URI readParams) s = inr e ->
     fst (handleMessage codec now message s) =
       Some {| RespJSONRPC := "2.0"; RespID := ID req; Result := None;
               RespError := Some {| Code := -32603;
                                    Message := "Resource read failed";
                                    Data := Some e |} |}).
Proof.
  intros Hdec Hver. rewrite (handleMessage_decoded codec _ _ _ _ Hdec Hver). cbv zeta.
  split.
  - intros callParams e Hm Hparams Hpass Hfail.
    rewrite Hm, routeMethod_tools_call.
    rewrite (handleToolsCall_decoded codec _ _ _ _ Hparams). cbv zeta.
    rewrite Hpass, Hfail. reflexivity.
  - intros readParams e Hm Hparams Hfail.
    rewrite Hm, routeMethod_resources_read.
    unfold handleResourcesRead. rewrite Hparams, Hfail. reflexivity.
Qed.

(** C6 (amended). A [tools/call] of a write operation submitted while the
    limiter denies is answered by a well-formed response whose result is
    flagged as an error and carries the rate-limit message; the registry is
    not called. When the audit logger is present and enabled, exactly one
    event, of level WARNING, is written to the sink and pushed on the
    ring; when the logger is present and disabled it stays as it is, and
    when there is no logger there is none afterwards: no event is
    recorded. *)
Theorem throttled_write_call (now : Q) (message : string) (s : Server)
    (req : Request) (callParams : ToolsCallParams) :
  decodeRequest codec message = inl req -> JSONRPC req = "2.0" ->
  Method req = "tools/call" ->
  Unmarshal (decodeToolsCallParams codec) (Params req) = inl callParams ->
  isWriteOperation (Name callParams) = true ->
  fst (RateLimit.Allow now (rateLimiter s)) = false ->
  exists s1 : Server,
    handleMessage codec now message s =
      (Some {| RespJSONRPC := "2.0"; RespID := ID req;
               Result := Some (ResultToolsCall
                  {| Content :=
                       [ {| BlockType := "text";
                            Text := "Error: rate limit exceeded, please try again later" |} ];
                     IsError := true |});
               RespError := None |}, s1) /\
    callLog s1 = callLog s /\
    (forall l : AuditLog.Logger,
       auditLogger s = Some l -> AuditLog.enabled l = true ->
       exists (l1 : AuditLog.Logger) (event : AuditLog.Event),
         auditLogger s1 = Some l1 /\
         AuditLog.sink l1 = AuditLog.sink l ++ [event] /\
         AuditLog.buffer l1 = AuditLog.push event l /\
         AuditLog.EvLevel event = AuditLog.LevelWarning /\
         AuditLog.EvCategory event = AuditLog.CategoryWrite /\
         AuditLog.Operation event = Name callParams /\
         AuditLog.Success event = false /\
         AuditLog.Error event = "rate limit exceeded") /\
    (forall l : AuditLog.Logger,
       auditLogger s = Some l -> AuditLog.enabled l = false ->
       auditLogger s1 = Some l) /\
    (auditLogger s = None -> auditLogger s1 = None).
Proof.
  intros Hdec Hver Hm Hparams Hw Hdeny.
  rewrite (handleMessage_decoded codec _ _ _ _ Hdec Hver). cbv zeta.
  rewrite Hm, routeMethod_tools_call.
  rewrite (handleToolsCall_decoded codec _ _ _ _ Hparams). cbv zeta.
  rewrite rateGate_eq, Hw. cbn [fst snd]. rewrite Hdeny. cbn [fst snd routed].
  eexists. split; [reflexivity|].
  unfold auditLog. cbn [auditLogger withRateLimiter].
  destruct (auditLogger s) as [l0|] eqn:Hlog.
  - cbn [callLog auditLogger withAuditLogger withRateLimiter].
    split; [reflexivity|]. split; [|split].
    + intros l [= <-] Hen.
      rewrite (AuditLogFacts.Log_enabled now (rateLimitEvent (Name callParams)) l0
                 Hen eq_refl).
      eexists _, (AuditLog.stamp now (rateLimitEvent (Name callParams))).
      repeat split.
    + intros l [= <-] Hen. now rewrite AuditLogFacts.Log_disabled.
    + discriminate.
  - cbn [callLog auditLogger withRateLimiter].
    split; [reflexivity|]. split; [|split]; [discriminate | discriminate |].
    intros _. exact Hlog.
Qed.

End Failures.

Lemma downstream_failure_surfacing_witness :
  fst (handleMessage Sample.codec 0 Sample.callGetRecord (Sample.server true)) =
    Some {| RespJSONRPC := "2.0"; RespID := Some (IDNumber 5);
            Result := Some (ResultToolsCall
                              {| Content := [ {| BlockType := "text";
                                                 Text := "Error: record not found" |} ];
                                 IsError := true |});
            RespError := None |} /\
  fst (handleMessage Sample.codec 0 Sample.readBadScheme (Sample.server true)) =
    Some {| RespJSONRPC := "2.0"; RespID := Some (IDNumber 2); Result := None;
            RespError := Some {| Code := -32603;
                                 Message := "Resource read failed";
                                 Data := Some "invalid URI scheme: http://example" |} |}.
Proof.
  split.
  - exact (proj1 (downstream_failure_surfacing Sample.codec 0 Sample.callGetRecord
                    (Sample.server true) _ eq_refl eq_refl)
             {| Name := "get_record"; Arguments := None |} "record not found"
             eq_refl eq_refl eq_refl eq_refl).
  - exact (proj2 (downstream_failure_surfacing Sample.codec 0 Sample.readBadScheme
                    (Sample.server true) _ eq_refl eq_refl)
             {| URI := "http://example" |} "invalid URI scheme: http://example"
             eq_refl eq_refl eq_refl).
Defined.

(** C2 (counterexample). The read of [http://example] fails downstream in
    [resources.Registry.Read], and the response to the [resources/read]
    request is a protocol-level error without a result. *)
Lemma failed_resource_read_is_protocol_error :
  resourcesRead "http://example" (Sample.server true) =
    inr "invalid URI scheme: http://example" /\
  fst (handleMessage Sample.codec 0 Sample.readBadScheme (Sample.server true)) =
    Some {| RespJSONRPC := "2.0"; RespID := Some (IDNumber 2); Result := None;
            RespError := Some {| Code := InternalError;
                                 Message := "Resource read failed";
                                 Data := Some "invalid URI scheme: http://example" |} |}.
Proof. split; reflexivity. Qed.

Lemma throttled_write_call_witness :
  exists (s1 : Server) (l1 : AuditLog.Logger),
    fst (handleMessage Sample.codec 0 Sample.callPutRecord (Sample.exhausted true)) =
      Some {| RespJSONRPC := "2.0"; RespID := Some (IDNumber 4);
              Result := Some (ResultToolsCall rateLimitResult);
              RespError := None |} /\
    snd (handleMessage Sample.codec 0 Sample.callPutRecord (Sample.exhausted true)) = s1 /\
    auditLogger s1 = Some l1 /\
    length (AuditLog.sink l1) = 2%nat.
Proof.
  destruct (throttled_write_call Sample.codec 0 Sample.callPutRecord
              (Sample.exhausted true) _ {| Name := "put_record"; Arguments := None |}
              eq_refl eq_refl eq_refl eq_refl eq_refl eq_refl)
    as (s1 & Hresp & _ & Hon & _).
  destruct (Hon _ eq_refl eq_refl) as (l1 & event & Hlog & Hsink & _).
  exists s1, l1. rewrite Hresp. cbn [fst snd].
  split; [reflexivity|]. split; [reflexivity|]. split; [exact Hlog|].
  rewrite Hsink. reflexivity.
Defined.

(** C6 (counterexample). With audit logging switched off in the
    configuration, a [put_record] call submitted while the limiter has no
    token left is answered by the rate-limit result, and no event is
    recorded: sink and ring stay empty. *)
Lemma throttled_call_unrecorded_when_audit_off :
  isWriteOperation "put_record" = true /\
  fst (RateLimit.Allow 0 (rateLimiter (Sample.exhausted false))) = false /\
  fst (handleMessage Sample.codec 0 Sample.callPutRecord (Sample.exhausted false)) =
    Some {| RespJSONRPC := "2.0"; RespID := Some (IDNumber 4);
            Result := Some (ResultToolsCall rateLimitResult);
            RespError := None |} /\
  option_map AuditLog.sink
    (auditLogger (snd (handleMessage Sample.codec 0 Sample.callPutRecord
                         (Sample.exhausted false)))) = Some [] /\
  option_map AuditLog.buffer
    (auditLogger (snd (handleMessage Sample.codec 0 Sample.callPutRecord
                         (Sample.exhausted false)))) = Some [].
Proof. repeat split; reflexivity. Qed.

End McpFacts.

(** ** Transports *)

Module TransportFacts.
Import Mcp Transport.

Lemma trySend_full (msg : string) (c : Chan) :
  length (queue c) = capacity c -> trySend msg c = None.
Proof. intros H. unfold trySend. now rewrite H, Nat.ltb_irrefl. Qed.

Lemma trySend_room (msg : string) (c : Chan) :
  (length (queue c) < capacity c)%nat ->
  trySend msg c = Some {| queue := queue c ++ [msg]; capacity := capacity c |}.
Proof. intros H. unfold trySend. apply Nat.ltb_lt in H. now rewrite H. Qed.

(** Push stream: the new message is dropped, the queue is kept. *)
Lemma sseEnqueue_full (msg : string) (c : Chan) :
  length (queue c) = capacity c -> sseEnqueue msg c = c.
Proof. intros H. unfold sseEnqueue. now rewrite trySend_full. Qed.

(** Polling: the oldest message is evicted, the new one is appended. *)
Lemma wsEnqueue_full (msg : string) (c : Chan) :
  length (queue c) = capacity c -> (0 < capacity c)%nat ->
  wsEnqueue msg c = Some {| queue := tail (queue c) ++ [msg]; capacity := capacity c |}.
Proof.
  intros Hfull Hpos. unfold wsEnqueue. rewrite trySend_full by exact Hfull.
  unfold tryRecv. destruct (queue c) as [|oldest rest] eqn:Hq; simpl in Hfull; [lia|].
  rewrite trySend_room; [reflexivity | simpl; lia].
Qed.

(** Below capacity both transports append the message. *)
Lemma enqueue_room (msg : string) (c : Chan) :
  (length (queue c) < capacity c)%nat ->
  sseEnqueue msg c = {| queue := queue c ++ [msg]; capacity := capacity c |} /\
  wsEnqueue msg c = Some {| queue := queue c ++ [msg]; capacity := capacity c |}.
Proof.
  intros H. unfold sseEnqueue, wsEnqueue. now rewrite trySend_room.
Qed.

(** A session registered by either transport starts with an empty queue
    of capacity 100. *)
Lemma sseConnect_session (clientID : string) (t : SSEServer) :
  exists client,
    sseClients (sseConnect clientID t) !! clientID = Some client /\
    sseMessages client = {| queue := []; capacity := 100 |}.
Proof. eexists. unfold sseConnect. cbn [sseClients]. rewrite lookup_insert_eq. split; reflexivity. Qed.

Lemma wsConnect_session (now : Q) (clientID : string) (t : WebSocketServer) :
  exists client,
    wsClients (wsConnect now clientID t) !! clientID = Some client /\
    wsMessages client = {| queue := []; capacity := 100 |}.
Proof. eexists. unfold wsConnect. cbn [wsClients]. rewrite lookup_insert_eq. split; reflexivity. Qed.

Section Sessions.
Context (codec : Codec).

Lemma sse_full_session (now : Q) (sessionID requestBody : string) (t : SSEServer)
    (client : SSEClient) (resp : Response) (responseBytes : string) :
  sessionID <> "" -> sseClients t !! sessionID = Some client ->
  length (queue (sseMessages client)) = capacity (sseMessages client) ->
  fst (handleMessage codec now requestBody (sseServer t)) = Some resp ->
  encodeResponse codec resp = inl responseBytes ->
  status (fst (sseHandleMessage codec now "POST" sessionID requestBody t)) = 202 /\
  exists client1,
    sseClients (snd (sseHandleMessage codec now "POST" sessionID requestBody t))
      !! sessionID = Some client1 /\
    sseMessages client1 = sseMessages client.
Proof.
  intros Hid Hfind Hfull Hresp Henc. unfold sseHandleMessage.
  change (String.eqb "POST" "POST") with true. cbn [negb].
  apply String.eqb_neq in Hid. rewrite Hid, Hfind.
  destruct (handleMessage codec now requestBody (sseServer t)) as [response s1].
  cbn [fst] in Hresp. subst response. rewrite Henc. cbn [fst snd sseClients status].
  split; [reflexivity|]. eexists. rewrite lookup_insert_eq. split; [reflexivity|].
  cbn [sseMessages]. now apply sseEnqueue_full.
Qed.

Lemma ws_full_session (now : Q) (clientID requestData : string) (t : WebSocketServer)
    (client : WSClient) (resp : Response) (responseData : string) :
  clientID <> "" -> wsClients t !! clientID = Some client ->
  length (queue (wsMessages client)) = capacity (wsMessages client) ->
  (0 < capacity (wsMessages client))%nat ->
  fst (handleMessage codec now requestData (wsServer t)) = Some resp ->
  encodeResponse codec resp = inl responseData ->
  exists out client1,
    wsHandleSend codec now "POST" clientID requestData t = Some out /\
    fst out = {| status := 200; body := responseData |} /\
    wsClients (snd out) !! clientID = Some client1 /\
    wsMessages client1 =
      {| queue := tail (queue (wsMessages client)) ++ [responseData];
         capacity := capacity (wsMessages client) |}.
Proof.
  intros Hid Hfind Hfull Hpos Hresp Henc. unfold wsHandleSend.
  change (String.eqb "POST" "POST") with true. cbn [negb].
  apply String.eqb_neq in Hid. rewrite Hid, Hfind.
  destruct (handleMessage codec now requestData (wsServer t)) as [response s1].
  cbn [fst] in Hresp. subst response. cbn [marshalResponse]. rewrite Henc.
  rewrite (wsEnqueue_full _ _ Hfull Hpos).
  eexists _, _. split; [reflexivity|]. cbn [fst snd wsClients].
  split; [reflexivity|]. rewrite lookup_insert_eq. split; reflexivity.
Qed.

(** C8. When a response is produced for a session whose outbound queue
    is at capacity, the push-stream handler leaves the queue as it is (the
    new message is dropped and every queued message kept) and still
    answers 202, while the polling handler removes the oldest queued
    message and appends the new one. Both handlers are functions of the
    server state and the request, so each outcome is determined. *)
Theorem full_queue_policies (now : Q) (requestBody : string) :
  (forall (t : SSEServer) sessionID client resp responseBytes,
     sessionID <> "" -> sseClients t !! sessionID = Some client ->
     length (queue (sseMessages client)) = capacity (sseMessages client) ->
     fst (handleMessage codec now requestBody (sseServer t)) = Some resp ->
     encodeResponse codec resp = inl responseBytes ->
     status (fst (sseHandleMessage codec now "POST" sessionID requestBody t)) = 202 /\
     exists client1,
       sseClients (snd (sseHandleMessage codec now "POST" sessionID requestBody t))
         !! sessionID = Some client1 /\
       sseMessages client1 = sseMessages client) /\
  (forall (t : WebSocketServer) clientID client resp responseData,
     clientID <> "" -> wsClients t !! clientID = Some client ->
     length (queue (wsMessages client)) = capacity (wsMessages client) ->
     (0 < capacity (wsMessages client))%nat ->
     fst (handleMessage codec now requestBody (wsServer t)) = Some resp ->
     encodeResponse codec resp = inl responseData ->
     exists out client1,
       wsHandleSend codec now "POST" clientID requestBody t = Some out /\
       fst out = {| status := 200; body := responseData |} /\
       wsClients (snd out) !! clientID = Some client1 /\
       wsMessages client1 =
         {| queue := tail (queue (wsMessages client)) ++ [responseData];
            capacity := capacity (wsMessages client) |}).
Proof.
  split.
  - intros. now apply sse_full_session with (resp := resp) (responseBytes := responseBytes).
  - intros. now apply ws_full_session with (resp := resp).
Qed.

End Sessions.

Lemma full_queue_policies_witness :
  (exists client1,
     sseClients (snd (sseHandleMessage Sample.codec 0 "POST" "s1"
                        Sample.requestShutdown Sample.sseFull)) !! "s1" = Some client1 /\
     queue (sseMessages client1) = repeat "m" 100) /\
  (exists out client1,
     wsHandleSend Sample.codec 0 "POST" "c1" Sample.requestShutdown Sample.wsFull
       = Some out /\
     wsClients (snd out) !! "c1" = Some client1 /\
     queue (wsMessages client1) = repeat "m" 99 ++ ["{'jsonrpc':'2.0','result':{}}"]).
Proof.
  destruct (full_queue_policies Sample.codec 0 Sample.requestShutdown) as [Hsse Hws].
  split.
  - destruct (Hsse Sample.sseFull "s1"
                {| sseID := "s1"; sseMessages := Sample.fullChan |}
                {| RespJSONRPC := "2.0"; RespID := Some (IDNumber 1);
                   Result := None; RespError := None |}
                "{'jsonrpc':'2.0','result':{}}")
      as (_ & client1 & Hfind & Hq);
      [discriminate | reflexivity | reflexivity | reflexivity | reflexivity |].
    exists client1. split; [exact Hfind | now rewrite Hq].
  - destruct (Hws Sample.wsFull "c1"
                {| wsID := "c1"; wsMessages := Sample.fullChan; lastPing := 0 |}
                {| RespJSONRPC := "2.0"; RespID := Some (IDNumber 1);
                   Result := None; RespError := None |}
                "{'jsonrpc':'2.0','result':{}}")
      as (out & client1 & Hout & _ & Hfind & Hq);
      [discriminate | reflexivity | reflexivity | repeat constructor
      | reflexivity | reflexivity |].
    exists out, client1. split; [exact Hout|]. split; [exact Hfind | now rewrite Hq].
Defined.

End TransportFacts.

(** ** Further properties: strings and validation *)

Module ValidationMore.
Import GoString GoStringFacts Validation ValidationFacts.

Lemma length_append (a b : string) :
  String.length (a +:+ b) = (String.length a + String.length b)%nat.
Proof. induction a as [|c a IH]; simpl; [reflexivity | now rewrite IH]. Qed.

Lemma dropBytes_append (a b : string) : dropBytes (String.length a) (a +:+ b) = b.
Proof. induction a as [|c a IH]; simpl; [reflexivity | exact IH]. Qed.

Lemma dropBytes_split (n : nat) (s : string) : exists a, s = a +:+ dropBytes n s.
Proof.
  revert s. induction n as [|n IH]; intros s.
  - exists "". reflexivity.
  - destruct s as [|c s]; simpl.
    + exists "". reflexivity.
    + destruct (IH s) as [a Ha]. exists (String c a). rewrite Ha at 1. reflexivity.
Qed.

Lemma HasSuffix_spec (s p : string) :
  HasSuffix s p = true <-> exists a, s = a +:+ p.
Proof.
  unfold HasSuffix. rewrite andb_true_iff, Nat.leb_le, String.eqb_eq. split.
  - intros [_ H]. destruct (dropBytes_split (String.length s - String.length p) s) as [a Ha].
    exists a. now rewrite H in Ha.
  - intros [a ->]. rewrite length_append. split; [lia|].
    replace (String.length a + String.length p - String.length p)%nat
      with (String.length a) by lia.
    apply dropBytes_append.
Qed.

Lemma isASCII_append (a b : string) :
  isASCII (a +:+ b) = isASCII a && isASCII b.
Proof.
  induction a as [|c a IH]; simpl; [reflexivity|]. now rewrite IH, andb_assoc.
Qed.

Lemma runeWidth_ascii (c : ascii) (s : string) :
  isASCIIByte c = true -> runeWidth (String c s) = 1%nat.
Proof. intros H. simpl. now rewrite H. Qed.

Lemma isASCII_valid (s : string) : isASCII s = true -> ValidString s = true.
Proof.
  unfold ValidString. induction s as [|c s IH]; [reflexivity|].
  simpl isASCII. rewrite andb_true_iff. intros [Hc Hs].
  cbn [validFrom]. rewrite runeWidth_ascii by exact Hc. now apply IH.
Qed.

Lemma nonempty_len (s : string) : String.eqb s "" = false <-> 1 <= len s.
Proof.
  rewrite String.eqb_neq. unfold len. destruct s; simpl; split; intros H;
    try congruence; try lia.
Qed.

Lemma isValidIdentifier_nonempty (s : string) :
  String.eqb s "" = false -> isValidIdentifier s = allIdentChars s.
Proof. intros H. unfold isValidIdentifier. now rewrite H. Qed.

(** The length test followed by the character test, as every identifier
    check runs them. *)
Lemma gate_none (max : Z) (s : string) (tooLong invalid : ValidationError) :
  (if max <? len s then Some tooLong
   else if negb (allIdentChars s) then Some invalid else None) = None <->
  len s <= max /\ allIdentChars s = true.
Proof.
  destruct (max <? len s) eqn:E; [apply Z.ltb_lt in E | apply Z.ltb_ge in E].
  - split; [discriminate | lia].
  - destruct (allIdentChars s); simpl; split; try discriminate; try tauto.
    intros [_ H]. discriminate.
Qed.

(** X1. The three configured identifier checks accept exactly: for a
    namespace and a bin name, the non-empty strings of at most the
    configured number of bytes over [[a-zA-Z0-9_-]]; for a set name, the
    empty string and the strings of at most the configured number of
    bytes over that class. *)
Theorem identifier_checks_exact (v : Validator) (s : string) :
  (ValidateNamespace v s = None <->
     1 <= len s <= maxNamespaceLength v /\ allIdentChars s = true) /\
  (ValidateBinName v s = None <->
     1 <= len s <= maxBinNameLength v /\ allIdentChars s = true) /\
  (ValidateSetName v s = None <->
     s = "" \/ (len s <= maxSetNameLength v /\ allIdentChars s = true)).
Proof.
  unfold ValidateNamespace, ValidateBinName, ValidateSetName.
  destruct (String.eqb s "") eqn:Hs.
  - apply String.eqb_eq in Hs. subst s. unfold len. simpl.
    split; [|split]; split; try discriminate; try (intros; lia); auto.
  - rewrite (isValidIdentifier_nonempty _ Hs), !gate_none.
    pose proof Hs as Hne. apply String.eqb_neq in Hne. apply nonempty_len in Hs.
    split; [|split]; split; try tauto; try (intros; intuition lia).
Qed.

(** X2. [ValidateIndexName] accepts exactly the non-empty strings of at
    most 256 bytes over [[a-zA-Z0-9_-]], whatever the validator's
    configuration. *)
Theorem index_name_check_exact (v : Validator) (s : string) :
  ValidateIndexName v s = None <-> 1 <= len s <= 256 /\ allIdentChars s = true.
Proof.
  unfold ValidateIndexName. destruct (String.eqb s "") eqn:Hs.
  - apply String.eqb_eq in Hs. subst s. unfold len. simpl.
    split; [discriminate | intros; lia].
  - rewrite (isValidIdentifier_nonempty _ Hs), gate_none.
    apply nonempty_len in Hs. intuition lia.
Qed.

Lemma ValidateBinsIn_none (v : Validator) (names : list string) :
  ValidateBinsIn v names = None <->
  forall name, In name names -> ValidateBinName v name = None.
Proof.
  induction names as [|n names IH]; simpl.
  - split; [intros _ ? [] | reflexivity].
  - destruct (ValidateBinName v n) eqn:En.
    + split; [discriminate|]. intros H. specialize (H n (or_introl eq_refl)). congruence.
    + rewrite IH. split.
      * intros H name [<- | Hin]; auto.
      * intros H name Hin. apply H. now right.
Qed.

Lemma ValidateBinsIn_some (v : Validator) (names : list string) (err : ValidationError) :
  ValidateBinsIn v names = Some err ->
  exists name, In name names /\ ValidateBinName v name = Some err.
Proof.
  induction names as [|n names IH]; simpl; [discriminate|].
  destruct (ValidateBinName v n) eqn:En.
  - intros [= <-]. exists n. auto.
  - intros H. destruct (IH H) as (name & Hin & Hname). exists name. auto.
Qed.

Lemma In_keys {V : Type} (bins : gmap string V) (name : string) :
  In name (map fst (map_to_list bins)) <-> is_Some (bins !! name).
Proof.
  rewrite in_map_iff. split.
  - intros ([k x] & <- & Hin). apply list_elem_of_In, elem_of_map_to_list in Hin.
    simpl. eauto.
  - intros [x Hx]. exists (name, x). split; [reflexivity|].
    now apply list_elem_of_In, elem_of_map_to_list.
Qed.

(** X3. [ValidateBins] passes exactly when every key of the map passes
    [ValidateBinName], in whatever order the keys are visited; and an
    error it returns is the error of one of the keys. *)
Theorem bins_check_order_free {V : Type} (v : Validator) (bins : gmap string V)
    (order : list string) :
  Permutation order (map fst (map_to_list bins)) ->
  (ValidateBinsIn v order = None <-> ValidateBins v bins = None) /\
  (ValidateBins v bins = None <->
     forall name, is_Some (bins !! name) -> ValidateBinName v name = None) /\
  (forall err, ValidateBinsIn v order = Some err ->
     exists name, is_Some (bins !! name) /\ ValidateBinName v name = Some err).
Proof.
  intros Hperm. unfold ValidateBins. rewrite !ValidateBinsIn_none.
  split; [|split].
  - split; intros H name Hin; apply H.
    + now apply (Permutation_in _ (Permutation_sym Hperm)).
    + now apply (Permutation_in _ Hperm).
  - split; intros H name Hin; apply H; now apply In_keys.
  - intros err Herr. destruct (ValidateBinsIn_some _ _ _ Herr) as (name & Hin & Hname).
    exists name. split; [|exact Hname].
    apply In_keys. now apply (Permutation_in _ Hperm).
Qed.

Lemma bins_check_order_free_witness :
  let v := NewValidator DefaultValidatorConfig in
  let bins : gmap string Z :=
    <["age" := 1]> (<["" := 2]> (<["bad name" := 3]> ∅)) in
  ValidateBinsIn v ["age"; ""; "bad name"]
    = Some {| Field := "bin_name"; Message := "cannot be empty" |} /\
  ValidateBinsIn v ["bad name"; ""; "age"]
    = Some {| Field := "bin_name";
              Message := "contains invalid characters (must be alphanumeric or underscore)" |} /\
  ValidateBins v bins <> None /\
  exists name,
    is_Some (bins !! name) /\
    ValidateBinName v name = Some {| Field := "bin_name"; Message := "cannot be empty" |}.
Proof.
  intros v bins.
  assert (Hperm : Permutation ["age"; ""; "bad name"] (map fst (map_to_list bins)))
    by (vm_compute; solve_Permutation).
  destruct (bins_check_order_free v bins _ Hperm) as (Hnone & _ & Herr).
  split; [reflexivity|]. split; [reflexivity|]. split.
  - intros H. apply Hnone in H. discriminate.
  - apply Herr. reflexivity.
Defined.

(** X4. On ASCII keys [ValidateKey] accepts exactly the keys of one up to
    [maxKeyLength] bytes: no byte value is excluded. *)
Theorem ascii_key_check (v : Validator) (key : string) :
  isASCII key = true ->
  (ValidateKey v key = None <-> 1 <= len key <= maxKeyLength v).
Proof.
  intros Hascii. unfold ValidateKey. rewrite (isASCII_valid _ Hascii). simpl.
  destruct (String.eqb key "") eqn:Hk.
  - apply String.eqb_eq in Hk. subst key. unfold len. simpl.
    split; [discriminate | lia].
  - apply nonempty_len in Hk.
    destruct (maxKeyLength v <? len key) eqn:E;
      [apply Z.ltb_lt in E | apply Z.ltb_ge in E]; split;
      try discriminate; try reflexivity; lia.
Qed.

Lemma ascii_key_check_witness :
  ValidateKey (NewValidator DefaultValidatorConfig) "user123" = None.
Proof.
  apply (ascii_key_check (NewValidator DefaultValidatorConfig) "user123");
    [reflexivity | split; discriminate].
Defined.

(** X5. On ASCII names [ValidateModuleName] accepts exactly the names of
    one up to 128 bytes whose last four bytes spell [.lua] in any letter
    case; the stem before the extension is not examined. *)
Theorem module_name_check (mapUnicodeLower : string -> string) (v : Validator)
    (name : string) :
  isASCII name = true ->
  (ValidateModuleName mapUnicodeLower v name = None <->
   1 <= len name <= 128 /\
   exists stem ext, name = stem +:+ ext /\ SpecMatchesIgnoreCase ext ".lua").
Proof.
  intros Hascii. unfold ValidateModuleName, ToLower. rewrite Hascii.
  assert (Hsuffix : HasSuffix (lowerASCII name) ".lua" = true <->
                    exists stem ext, name = stem +:+ ext /\
                                     SpecMatchesIgnoreCase ext ".lua").
  { rewrite HasSuffix_spec. split.
    - intros [a Ha]. destruct (lowerASCII_split _ _ _ Ha) as (stem & ext & -> & _ & Hext).
      exists stem, ext. split; [reflexivity|]. now apply lowerASCII_matches.
    - intros (stem & ext & -> & Hext). exists (lowerASCII stem).
      rewrite lowerASCII_app. f_equal. now apply lowerASCII_matches. }
  destruct (String.eqb name "") eqn:Hn.
  - apply String.eqb_eq in Hn. subst name. unfold len. simpl.
    split; [discriminate | lia].
  - apply nonempty_len in Hn.
    destruct (128 <? len name) eqn:E; [apply Z.ltb_lt in E | apply Z.ltb_ge in E].
    + split; [discriminate | lia].
    + destruct (HasSuffix (lowerASCII name) ".lua") eqn:Hs; simpl.
      * split; [intros _; split; [lia | now apply Hsuffix] | reflexivity].
      * split; [discriminate|]. intros [_ H]. apply Hsuffix in H. discriminate.
Qed.

Lemma module_name_check_witness :
  ValidateModuleName (fun s => s) (NewValidator DefaultValidatorConfig)
    "../Evil Name.LUA" = None.
Proof.
  apply (module_name_check (fun s => s)); [reflexivity|].
  split; [split; discriminate|].
  exists "../Evil Name", ".LUA". split; [reflexivity|].
  repeat first
    [ apply match_empty
    | apply match_byte;
      [ first [ left; reflexivity | right; split; reflexivity ] | ] ].
Defined.

Lemma sanitize_ascii_step (c : ascii) (s : string) :
  isASCIIByte c = true ->
  sanitizeFrom 0 (String c s) =
  if keepByte c then String c (sanitizeFrom 0 s) else sanitizeFrom 0 s.
Proof. intros H. cbn [sanitizeFrom]. now rewrite runeWidth_ascii. Qed.

Lemma sanitize_ascii_bytes (s : string) (c : ascii) :
  isASCII s = true ->
  In c (list_ascii_of_string (SanitizeString s)) ->
  keepByte c = true /\ In c (list_ascii_of_string s).
Proof.
  unfold SanitizeString. induction s as [|d s IH]; [intros _ []|].
  simpl isASCII. rewrite andb_true_iff. intros [Hd Hs].
  rewrite sanitize_ascii_step by exact Hd. destruct (keepByte d) eqn:Hk; simpl.
  - intros [<- | Hin]; [auto|]. destruct (IH Hs Hin). auto.
  - intros Hin. destruct (IH Hs Hin). auto.
Qed.

Lemma sanitize_ascii_ascii (s : string) :
  isASCII s = true -> isASCII (SanitizeString s) = true.
Proof.
  unfold SanitizeString. induction s as [|d s IH]; [reflexivity|].
  intros H. simpl in H. apply andb_true_iff in H as [Hd Hs].
  rewrite sanitize_ascii_step by exact Hd. destruct (keepByte d); simpl; auto.
  now rewrite Hd, IH.
Qed.

Lemma sanitize_ascii_fixed (s : string) :
  isASCII s = true ->
  (forall c, In c (list_ascii_of_string s) -> keepByte c = true) ->
  SanitizeString s = s.
Proof.
  unfold SanitizeString. induction s as [|d s IH]; [reflexivity|].
  simpl isASCII. rewrite andb_true_iff. intros [Hd Hs] Hall.
  rewrite sanitize_ascii_step by exact Hd.
  rewrite (Hall d (or_introl eq_refl)). f_equal. apply IH; [exact Hs|].
  intros c Hin. apply Hall. now right.
Qed.

Lemma sanitize_ascii_filter (s : string) :
  isASCII s = true ->
  list_ascii_of_string (SanitizeString s)
  = List.filter keepByte (list_ascii_of_string s).
Proof.
  unfold SanitizeString. induction s as [|d s IH]; [reflexivity|].
  simpl isASCII. rewrite andb_true_iff. intros [Hd Hs].
  rewrite sanitize_ascii_step by exact Hd. cbn [list_ascii_of_string List.filter].
  destruct (keepByte d); cbn [list_ascii_of_string]; now rewrite IH.
Qed.

(** X6. On ASCII text [SanitizeString] removes exactly the control bytes
    (below 32, and 127): the result is the input with those bytes left
    out and every other byte kept, in order and as often as it occurs. So
    every byte of the result is a byte of the input that is not a control
    byte, a text without control bytes is returned as it is, and
    sanitizing twice gives the same as sanitizing once. *)
Theorem sanitize_ascii (s : string) :
  isASCII s = true ->
  list_ascii_of_string (SanitizeString s)
    = List.filter keepByte (list_ascii_of_string s) /\
  (forall c, In c (list_ascii_of_string (SanitizeString s)) ->
     keepByte c = true /\ In c (list_ascii_of_string s)) /\
  ((forall c, In c (list_ascii_of_string s) -> keepByte c = true) ->
     SanitizeString s = s) /\
  SanitizeString (SanitizeString s) = SanitizeString s.
Proof.
  intros Hascii. split; [|split; [|split]].
  - now apply sanitize_ascii_filter.
  - intros c. now apply sanitize_ascii_bytes.
  - now apply sanitize_ascii_fixed.
  - apply sanitize_ascii_fixed; [now apply sanitize_ascii_ascii|].
    intros c Hin. now apply (sanitize_ascii_bytes s c Hascii).
Qed.

Lemma sanitize_ascii_witness :
  SanitizeString
    (String "h" (String (ascii_of_N 9) (String "i" (String (ascii_of_N 0)
       (String " " (String (ascii_of_N 127) (String "!" EmptyString)))))))
  = "hi !".
Proof.
  pose (s := String "h" (String (ascii_of_N 9) (String "i" (String (ascii_of_N 0)
               (String " " (String (ascii_of_N 127) (String "!" EmptyString))))))).
  change (SanitizeString s = "hi !").
  rewrite <- (string_of_list_ascii_of_string (SanitizeString s)).
  rewrite (proj1 (sanitize_ascii s eq_refl)). reflexivity.
Defined.

End ValidationMore.

(** ** Further properties: rate limiter *)

Module RateLimitMore.
Import RateLimit RateLimitFacts.

Lemma refill_tokens (now : Q) (r : RateLimiter) :
  (tokens (refill now r) == Qmin (maxTokens r) (credited now r))%Q.
Proof.
  unfold refill, credited. cbn [tokens].
  destruct (Qle_bool _ (maxTokens r)) eqn:E.
  - apply Qle_bool_iff in E. symmetry. now apply Q.min_r.
  - apply Qle_bool_false in E. symmetry. apply Q.min_l. now apply Qlt_le_weak.
Qed.

Lemma Allow_enabled (now : Q) (r : RateLimiter) :
  enabled r = true ->
  Allow now r =
  if Qle_bool 1 (tokens (refill now r)) then (true, spend 1 (refill now r))
  else (false, refill now r).
Proof. intros H. unfold Allow. now rewrite H. Qed.


Lemma one_le_min (x y : Q) : (1 <= Qmin x y <-> 1 <= x /\ 1 <= y)%Q.
Proof. apply Q.min_glb_iff. Qed.

Lemma Allow_grants_iff (now : Q) (r : RateLimiter) :
  enabled r = true ->
  (fst (Allow now r) = true <-> (1 <= maxTokens r /\ 1 <= credited now r)%Q).
Proof.
  intros Hen. rewrite (Allow_enabled _ _ Hen), <- one_le_min, <- refill_tokens.
  destruct (Qle_bool 1 (tokens (refill now r))) eqn:E; cbn [fst].
  - apply Qle_bool_iff in E. tauto.
  - apply Qle_bool_false in E. split; [discriminate|].
    intros H. exfalso. exact (Qlt_not_le _ _ E H).
Qed.

(** X7. A disabled limiter admits every call, in any number and for any
    batch size, and [Wait] returns at once without error; its state is
    never touched. *)
Theorem disabled_always_admits (r : RateLimiter) :
  enabled r = false ->
  (forall now n, AllowTimes now n r = (repeat true n, r)) /\
  (forall now n, AllowN now n r = (true, r)) /\
  (forall clock, Wait clock r = (None, r)).
Proof.
  intros Hen. split; [|split].
  - intros now n. induction n as [|n IH]; [reflexivity|].
    simpl. rewrite (Allow_disabled _ _ Hen), IH. reflexivity.
  - intros now n. unfold AllowN. now rewrite Hen.
  - intros clock. unfold Wait. now rewrite Hen.
Qed.

Lemma disabled_always_admits_witness :
  AllowTimes 0 100
    (NewRateLimiter {| Enabled := false; RequestsPerSec := 1; BurstSize := 1 |} 0)
  = (repeat true 100,
     NewRateLimiter {| Enabled := false; RequestsPerSec := 1; BurstSize := 1 |} 0).
Proof.
  exact (proj1 (disabled_always_admits
                  (NewRateLimiter {| Enabled := false; RequestsPerSec := 1;
                                     BurstSize := 1 |} 0) eq_refl) 0%Q 100%nat).
Defined.








(** X11. The admission rule on whole numbers. For an enabled limiter
    that holds [t] whole tokens, refills [q] whole tokens a second and was
    last refilled [e] whole seconds ago, with [t + e * q] at most [2^53]
    (where every [float64] intermediate of the source is a whole number
    it holds exactly): a call is granted exactly when the capacity is at
    least one token and [t + e * q] is at least one; the count left is
    the smaller of the capacity and [t + e * q], less the token spent
    when the call is granted. *)
Theorem admission_exact (now : Q) (t q e : Z) (r : RateLimiter) :
  enabled r = true ->
  (tokens r == inject_Z t)%Q -> (refillRate r == inject_Z q)%Q ->
  (now - lastRefill r == inject_Z e)%Q ->
  0 <= t -> 0 <= q -> 0 <= e -> t + e * q <= 2 ^ 53 ->
  (fst (Allow now r) = true <-> (1 <= maxTokens r)%Q /\ 1 <= t + e * q) /\
  (tokens (snd (Allow now r)) ==
     Qmin (maxTokens r) (inject_Z (t + e * q))
     - (if fst (Allow now r) then 1 else 0))%Q.
Proof.
  intros Hen Ht Hq He _ _ _ _.
  assert (Hcred : (credited now r == inject_Z (t + e * q))%Q).
  { unfold credited. rewrite Ht, Hq, He, inject_Z_plus, inject_Z_mult. reflexivity. }
  split.
  - rewrite (Allow_grants_iff now r Hen), Hcred.
    change 1%Q with (inject_Z 1). rewrite <- Zle_Qle. reflexivity.
  - rewrite <- Hcred. rewrite (Allow_enabled _ _ Hen).
    destruct (Qle_bool 1 (tokens (refill now r))); cbn [fst snd].
    + unfold spend. cbn [tokens]. rewrite refill_tokens. reflexivity.
    + rewrite refill_tokens. ring.
Qed.

Lemma admission_exact_witness :
  fst (Allow 1
         (snd (Allow 0 (NewRateLimiter {| Enabled := true; RequestsPerSec := 1000;
                                          BurstSize := 1 |} 0)))) = true.
Proof.
  apply (proj1 (admission_exact 1 0 1000 1
                  (snd (Allow 0 (NewRateLimiter {| Enabled := true;
                                                   RequestsPerSec := 1000;
                                                   BurstSize := 1 |} 0)))
                  eq_refl eq_refl eq_refl eq_refl
                  ltac:(discriminate) ltac:(discriminate) ltac:(discriminate)
                  ltac:(discriminate))).
  split; discriminate.
Defined.




End RateLimitMore.

(** ** Further properties: audit logger *)

Module AuditLogMore.
Import AuditLog AuditLogFacts.






Lemma keepLast_length {A : Type} (k : nat) (xs : list A) :
  length (keepLast k xs) = Nat.min k (length xs).
Proof. unfold keepLast. rewrite length_drop. lia. Qed.

Lemma GetRecentEvents_keepLast (count : Z) (l : Logger) :
  0 <= count ->
  GetRecentEvents count l = Some (keepLast (Z.to_nat count) (buffer l)).
Proof.
  intros Hcount. unfold GetRecentEvents, keepLast.
  destruct (Z.of_nat (length (buffer l)) <? count) eqn:E.
  - apply Z.ltb_lt in E.
    replace (Z.of_nat (length (buffer l)) <? 0) with false
      by (symmetry; apply Z.ltb_ge; lia).
    f_equal. f_equal. lia.
  - apply Z.ltb_ge in E.
    replace (count <? 0) with false by (symmetry; apply Z.ltb_ge; lia).
    f_equal. f_equal. lia.
Qed.

Lemma LogAll_disabled (now : Q) (events : list Event) (l : Logger) :
  enabled l = false -> LogAll now events l = l.
Proof.
  intros Hen. induction events as [|e events IH]; [reflexivity|].
  cbn [LogAll fold_left]. rewrite (Log_disabled _ _ _ Hen). exact IH.
Qed.

(** X15. A logger built with [Enabled] false records nothing: whatever is
    logged, the logger stays as built, with an empty sink, and
    [GetRecentEvents] returns the empty list for every count that is not
    negative. *)
Theorem disabled_logger_silent (fileOpens : bool) (cfg : Config) (l : Logger)
    (now : Q) (events : list Event) (count : Z) :
  NewLogger fileOpens cfg = Some l -> Enabled cfg = false -> 0 <= count ->
  LogAll now events l = l /\
  sink (LogAll now events l) = [] /\
  GetRecentEvents count (LogAll now events l) = Some [].
Proof.
  intros Hnew Hoff Hcount.
  assert (Hl : enabled l = false /\ sink l = [] /\ buffer l = []).
  { unfold NewLogger in Hnew. destruct (_ && _); [discriminate|].
    injection Hnew as <-. cbn [enabled sink buffer]. auto. }
  destruct Hl as (Hen & Hsink & Hbuf).
  rewrite (LogAll_disabled _ _ _ Hen). split; [reflexivity|].
  split; [exact Hsink|].
  rewrite GetRecentEvents_keepLast by exact Hcount. rewrite Hbuf.
  unfold keepLast. now rewrite drop_nil.
Qed.

Lemma disabled_logger_silent_witness :
  exists l,
    NewLogger true {| Enabled := false; FilePath := ""; BufferSize := 10;
                      MinLevel := "" |} = Some l /\
    GetRecentEvents 3 (LogAll 0 [Sample.op "test"] l) = Some [].
Proof.
  eexists. split; [reflexivity|].
  refine (proj2 (proj2 (disabled_logger_silent true
                          {| Enabled := false; FilePath := ""; BufferSize := 10;
                             MinLevel := "" |}
                          {| sink := []; enabled := false; minLevel := "";
                             buffer := []; bufSize := 10 |}
                          0 [Sample.op "test"] 3 eq_refl eq_refl _))).
  discriminate.
Defined.



(** X17. [GetRecentEvents] panics exactly on a negative count; otherwise
    it returns a suffix of the ring holding [count] events, or the whole
    ring when [count] exceeds what the ring holds. *)
Theorem recent_events_shape (count : Z) (l : Logger) :
  (GetRecentEvents count l = None <-> count < 0) /\
  (0 <= count ->
   exists recent older,
     GetRecentEvents count l = Some recent /\ buffer l = older ++ recent /\
     length recent = Nat.min (Z.to_nat count) (length (buffer l))).
Proof.
  split.
  - unfold GetRecentEvents.
    destruct (Z.of_nat (length (buffer l)) <? count) eqn:E.
    + apply Z.ltb_lt in E.
      replace (Z.of_nat (length (buffer l)) <? 0) with false
        by (symmetry; apply Z.ltb_ge; lia).
      split; [discriminate | lia].
    + destruct (count <? 0) eqn:E0.
      * apply Z.ltb_lt in E0. tauto.
      * apply Z.ltb_ge in E0. split; [discriminate | lia].
  - intros Hcount. rewrite GetRecentEvents_keepLast by exact Hcount.
    exists (keepLast (Z.to_nat count) (buffer l)),
           (take (length (buffer l) - Z.to_nat count) (buffer l)).
    split; [reflexivity|]. split; [|apply keepLast_length].
    unfold keepLast. now rewrite take_drop.
Qed.

Lemma recent_events_shape_witness :
  exists l, Sample.ring3 = Some l /\ GetRecentEvents (-1) l = None.
Proof.
  eexists. split; [reflexivity|].
  apply (proj1 (recent_events_shape (-1) _)). reflexivity.
Defined.

Lemma stamp_stamped (now : Q) (event : Event) : stamped (stamp now event).
Proof.
  unfold stamped, stamp. destruct (Timestamp event) eqn:E; simpl; congruence.
Qed.

Lemma stamp_preset (now t : Q) (event : Event) :
  Timestamp event = Some t -> stamp now event = event.
Proof. intros H. unfold stamp. now rewrite H. Qed.

Lemma push_In (event e : Event) (l : Logger) :
  In e (push event l) -> e = event \/ In e (buffer l).
Proof.
  unfold push. intros H.
  assert (Happ : In e (buffer l ++ [event])).
  { destruct (bufSize l <=? _); [|exact H].
    destruct (buffer l ++ [event]); simpl in *; auto. }
  apply in_app_or in Happ as [Hin | [<- | []]]; auto.
Qed.

(** X18. Every recorded event carries a time stamp: if all events in the
    sink and the ring are stamped, they still are after any [Log]; an
    event logged without a stamp gets the clock reading, and an event
    logged with one keeps it. *)
Theorem recorded_events_stamped (now : Q) (event : Event) (l : Logger) :
  Forall stamped (sink l) -> Forall stamped (buffer l) ->
  Forall stamped (sink (Log now event l)) /\
  Forall stamped (buffer (Log now event l)) /\
  (Timestamp event = None -> Timestamp (stamp now event) = Some now) /\
  (forall t, Timestamp event = Some t -> stamp now event = event).
Proof.
  intros Hsink Hbuf. split; [|split; [|split]].
  - unfold Log. destruct (enabled l); cbn [negb]; [|exact Hsink].
    destruct (marshals _); cbn [negb sink]; [|exact Hsink].
    apply Forall_app. split; [exact Hsink|]. constructor; [apply stamp_stamped | constructor].
  - unfold Log. destruct (enabled l); cbn [negb]; [|exact Hbuf].
    destruct (marshals _); cbn [negb buffer]; [|exact Hbuf].
    apply List.Forall_forall. intros e Hin. apply push_In in Hin as [-> | Hin].
    + apply stamp_stamped.
    + revert e Hin. now apply List.Forall_forall.
  - intros H. unfold stamp. now rewrite H.
  - intros t. apply stamp_preset.
Qed.

Lemma recorded_events_stamped_witness :
  exists l,
    Sample.ring3 = Some l /\
    Forall stamped (sink (Log 5 (Sample.op "a") l)).
Proof.
  eexists. split; [reflexivity|].
  refine (proj1 (recorded_events_stamped 5 (Sample.op "a") _ _ _)); constructor.
Defined.

(** X19. What the typed logging calls record on an enabled logger, for a
    context carrying a user and a client id: [LogRead], [LogWrite] and
    [LogAdmin] each write one event with that user and client id, with
    category READ, WRITE and ADMIN, at level INFO, AUDIT and AUDIT when
    the operation succeeded and at level ERROR with [Success] false when
    it failed; [LogAuth] writes one event of category AUTH, at level AUDIT
    on success and WARNING on failure, and leaves user and client id
    empty. *)
Theorem typed_log_events (now : Q) (ctx0 : Context) (user clientID : string)
    (operation namespace set key : string) (recordCount : Z) (duration : Q)
    (err : option string) (success : bool) (l : Logger) :
  enabled l = true ->
  let ctx := WithClientID (WithUser ctx0 user) clientID in
  let level (ok : Level) := match err with None => ok | Some _ => LevelError end in
  let succeeded := match err with None => true | Some _ => false end in
  let records (l1 : Logger) (lev : Level) (cat : Category) (u c : string) (ok : bool) :=
    exists e,
      sink l1 = sink l ++ [e] /\ EvLevel e = lev /\ EvCategory e = cat /\
      User e = u /\ ClientID e = c /\ Success e = ok /\
      Operation e = operation /\ Timestamp e = Some now in
  records (LogRead now ctx operation namespace set key recordCount duration err l)
    (level LevelInfo) CategoryRead user clientID succeeded /\
  records (LogWrite now ctx operation namespace set key recordCount duration err l)
    (level LevelAudit) CategoryWrite user clientID succeeded /\
  records (LogAdmin now ctx operation ∅ duration err l)
    (level LevelAudit) CategoryAdmin user clientID succeeded /\
  records (LogAuth now ctx operation success ∅ l)
    (if success then LevelAudit else LevelWarning) CategoryAuth "" "" success.
Proof.
  intros Hen ctx level succeeded records.
  unfold records, LogRead, LogWrite, LogAdmin, LogAuth.
  split; [|split; [|split]];
    (erewrite Log_enabled by first [exact Hen | reflexivity]);
    cbn [sink]; eexists; (split; [reflexivity|]);
    destruct err; repeat split; reflexivity.
Qed.

Lemma typed_log_events_witness :
  exists l e,
    Sample.ring3 = Some l /\
    sink (LogWrite 0 (WithClientID (WithUser Background "test_user") "client_123")
            "put_record" "test_ns" "test_set" "key123" 1 (1 # 1000) None l)
      = sink l ++ [e] /\
    User e = "test_user" /\ ClientID e = "client_123".
Proof.
  eexists.
  destruct (typed_log_events 0 Background "test_user" "client_123" "put_record"
              "test_ns" "test_set" "key123" 1 (1 # 1000) None true
              {| sink := []; enabled := true; minLevel := ""; buffer := [];
                 bufSize := 3 |} eq_refl)
    as (_ & (e & Hsink & _ & _ & Hu & Hc & _) & _).
  exists e. split; [reflexivity|]. split; [exact Hsink|]. split; assumption.
Defined.

End AuditLogMore.

(** ** Further properties: dispatcher *)

Module McpMore.
Import Mcp McpFacts.

Section Dispatch.
Context (codec : Codec).

Lemma auditLog_frame (now : Q) (event : AuditLog.Event) (s : Server) :
  tools (auditLog now event s) = tools s /\
  toolDefs (auditLog now event s) = toolDefs s /\
  resources (auditLog now event s) = resources s /\
  resourceDefs (auditLog now event s) = resourceDefs s.
Proof. unfold auditLog. destruct (auditLogger s); repeat split; reflexivity. Qed.

Lemma toolsCall_frame (name : string) (args : RawMessage) (s : Server) :
  tools (snd (toolsCall name args s)) = tools s /\
  toolDefs (snd (toolsCall name args s)) = toolDefs s /\
  resources (snd (toolsCall name args s)) = resources s /\
  resourceDefs (snd (toolsCall name args s)) = resourceDefs s /\
  auditLogger (snd (toolsCall name args s)) = auditLogger s.
Proof. unfold toolsCall. destruct (tools s !! name); repeat split; reflexivity. Qed.

Lemma rateGate_frame (now : Q) (name : string) (s : Server) :
  tools (snd (rateGate now name s)) = tools s /\
  toolDefs (snd (rateGate now name s)) = toolDefs s /\
  resources (snd (rateGate now name s)) = resources s /\
  resourceDefs (snd (rateGate now name s)) = resourceDefs s /\
  auditLogger (snd (rateGate now name s)) = auditLogger s.
Proof.
  rewrite rateGate_eq. destruct (isWriteOperation name); repeat split; reflexivity.
Qed.

Lemma handleToolsCall_frame (now : Q) (params : RawMessage) (s : Server) :
  let s1 := snd (handleToolsCall codec now params s) in
  tools s1 = tools s /\ toolDefs s1 = toolDefs s /\
  resources s1 = resources s /\ resourceDefs s1 = resourceDefs s.
Proof.
  cbv zeta. destruct (Unmarshal (decodeToolsCallParams codec) params) as [cp|err] eqn:Hdec.
  - rewrite (handleToolsCall_decoded codec _ _ _ _ Hdec). cbv zeta.
    destruct (rateGate_frame now (Name cp) s) as (H1 & H2 & H3 & H4 & _).
    destruct (fst (rateGate now (Name cp) s)).
    + destruct (toolsCall_frame (Name cp) (Arguments cp) (snd (rateGate now (Name cp) s)))
        as (T1 & T2 & T3 & T4 & _).
      destruct (toolReturn _); cbn [snd];
        match goal with
        | |- context [auditLog ?t ?e ?x] =>
            destruct (auditLog_frame t e x) as (A1 & A2 & A3 & A4)
        end;
        rewrite A1, A2, A3, A4, T1, T2, T3, T4, H1, H2, H3, H4; auto.
    + cbn [snd].
      match goal with
      | |- context [auditLog ?t ?e ?x] =>
          destruct (auditLog_frame t e x) as (A1 & A2 & A3 & A4)
      end.
      rewrite A1, A2, A3, A4, H1, H2, H3, H4. auto.
  - unfold handleToolsCall. rewrite Hdec. cbn [snd]. auto.
Qed.

Lemma routeMethod_other (now : Q) (method : string) (params : RawMessage) (s : Server) :
  method <> "tools/call" -> snd (routeMethod codec now method params s) = s.
Proof.
  intros Hm. unfold routeMethod.
  repeat match goal with
         | |- context [String.eqb method ?lit] =>
             let E := fresh "E" in
             destruct (String.eqb method lit) eqn:E;
             [first [reflexivity | apply String.eqb_eq in E; contradiction]|]
         end.
  reflexivity.
Qed.

Lemma routeMethod_frame (now : Q) (method : string) (params : RawMessage) (s : Server) :
  let s1 := snd (routeMethod codec now method params s) in
  tools s1 = tools s /\ toolDefs s1 = toolDefs s /\
  resources s1 = resources s /\ resourceDefs s1 = resourceDefs s.
Proof.
  cbv zeta. destruct (String.eqb method "tools/call") eqn:E.
  - apply String.eqb_eq in E. subst method. rewrite routeMethod_tools_call. cbn [snd].
    apply handleToolsCall_frame.
  - apply String.eqb_neq in E. rewrite (routeMethod_other _ _ _ _ E). auto.
Qed.

Lemma handleMessage_state (now : Q) (message : string) (s : Server) :
  snd (handleMessage codec now message s) =
  match decodeRequest codec message with
  | inr _ => s
  | inl req =>
      if String.eqb (JSONRPC req) "2.0"
      then snd (routeMethod codec now (Method req) (Params req) s)
      else s
  end.
Proof.
  unfold handleMessage. destruct (decodeRequest codec message) as [req|err];
    [|reflexivity].
  destruct (String.eqb (JSONRPC req) "2.0"); cbn [negb]; [|reflexivity].
  destruct (routeMethod codec now (Method req) (Params req) s) as [[result err] s1].
  destruct err; reflexivity.
Qed.

(** X20. Handling a message never changes the tool and resource
    registries of the server; and unless the message is a well-formed
    [tools/call] request, it changes nothing at all: a message that does
    not parse, a request of another method, known or unknown, leaves the
    rate limiter, the audit log and the call history as they were. *)
Theorem dispatch_frame (now : Q) (message : string) (s : Server) :
  let s1 := snd (handleMessage codec now message s) in
  (tools s1 = tools s /\ toolDefs s1 = toolDefs s /\
   resources s1 = resources s /\ resourceDefs s1 = resourceDefs s) /\
  (forall err, decodeRequest codec message = inr err -> s1 = s) /\
  (forall req, decodeRequest codec message = inl req ->
     JSONRPC req <> "2.0" \/ Method req <> "tools/call" -> s1 = s).
Proof.
  cbv zeta. rewrite handleMessage_state. split; [|split].
  - destruct (decodeRequest codec message) as [req|err]; [|auto].
    destruct (String.eqb (JSONRPC req) "2.0"); [|auto]. apply routeMethod_frame.
  - intros err ->. reflexivity.
  - intros req -> [Hver | Hm].
    + apply String.eqb_neq in Hver. now rewrite Hver.
    + destruct (String.eqb (JSONRPC req) "2.0"); [|reflexivity].
      now apply routeMethod_other.
Qed.

(** X21. Protocol errors and their codes: a message that does not parse
    is answered with -32700 and no id; a request whose version is not
    "2.0" with -32600 and the request's id, whatever its method; a request
    for a method outside the dispatch table with -32601, the method name
    as data; a [tools/call] or [resources/read] whose parameters do not
    decode with -32602. None of them changes the server. *)
Theorem protocol_errors (now : Q) (message : string) (s : Server) :
  (forall err, decodeRequest codec message = inr err ->
     handleMessage codec now message s =
       (Some {| RespJSONRPC := "2.0"; RespID := None; Result := None;
                RespError := Some {| Code := -32700; Message := "Parse error";
                                     Data := Some err |} |}, s)) /\
  (forall req, decodeRequest codec message = inl req -> JSONRPC req <> "2.0" ->
     handleMessage codec now message s =
       (Some {| RespJSONRPC := "2.0"; RespID := ID req; Result := None;
                RespError := Some {| Code := -32600; Message := "Invalid Request";
                                     Data := Some "jsonrpc must be '2.0'" |} |}, s)) /\
  (forall req, decodeRequest codec message = inl req -> JSONRPC req = "2.0" ->
     ~ In (Method req)
         ["initialize"; "initialized"; "shutdown"; "tools/list"; "tools/call";
          "resources/list"; "resources/read"; "prompts/list"] ->
     handleMessage codec now message s =
       (Some {| RespJSONRPC := "2.0"; RespID := ID req; Result := None;
                RespError := Some {| Code := -32601; Message := "Method not found";
                                     Data := Some (Method req) |} |}, s)) /\
  (forall req err, decodeRequest codec message = inl req -> JSONRPC req = "2.0" ->
     (Method req = "tools/call" /\
      Unmarshal (decodeToolsCallParams codec) (Params req) = inr err) \/
     (Method req = "resources/read" /\
      Unmarshal (decodeResourcesReadParams codec) (Params req) = inr err) ->
     handleMessage codec now message s =
       (Some {| RespJSONRPC := "2.0"; RespID := ID req; Result := None;
                RespError := Some {| Code := -32602; Message := "Invalid params";
                                     Data := Some err |} |}, s)).
Proof.
  split; [|split; [|split]].
  - intros err Hdec. unfold handleMessage. now rewrite Hdec.
  - intros req Hdec Hver. unfold handleMessage. rewrite Hdec.
    apply String.eqb_neq in Hver. now rewrite Hver.
  - intros req Hdec Hver Hm. rewrite (handleMessage_decoded codec _ _ _ _ Hdec Hver).
    cbv zeta. unfold routeMethod.
    repeat match goal with
           | |- context [String.eqb (Method req) ?lit] =>
               let E := fresh "E" in
               destruct (String.eqb (Method req) lit) eqn:E;
               [exfalso; apply Hm; apply String.eqb_eq in E; rewrite E; simpl; tauto|]
           end.
    reflexivity.
  - intros req err Hdec Hver [[Hm Hp] | [Hm Hp]];
      rewrite (handleMessage_decoded codec _ _ _ _ Hdec Hver); cbv zeta; rewrite Hm.
    + rewrite routeMethod_tools_call. unfold handleToolsCall. rewrite Hp. reflexivity.
    + rewrite routeMethod_resources_read. unfold handleResourcesRead. rewrite Hp.
      reflexivity.
Qed.

(** X22. Every tool call that passes the rate-limit gate is audited
    exactly once when the audit logger is present and enabled: one event
    at level AUDIT is written, naming the tool, with the category of the
    tool's classification (ADMIN before WRITE before READ), the duration
    of the call, and the call's outcome (a failed call has [Success] false
    and the error text). *)
Theorem completed_call_audited (now : Q) (params : RawMessage) (s : Server)
    (callParams : ToolsCallParams) (l : AuditLog.Logger) :
  Unmarshal (decodeToolsCallParams codec) params = inl callParams ->
  fst (rateGate now (Name callParams) s) = true ->
  auditLogger s = Some l -> AuditLog.enabled l = true ->
  let name := Name callParams in
  let outcome :=
    fst (toolsCall name (Arguments callParams) (snd (rateGate now name s))) in
  exists l1 event,
    auditLogger (snd (handleToolsCall codec now params s)) = Some l1 /\
    AuditLog.sink l1 = AuditLog.sink l ++ [event] /\
    AuditLog.EvLevel event = AuditLog.LevelAudit /\
    AuditLog.Operation event = name /\
    AuditLog.EvCategory event =
      (if isAdminOperation name then AuditLog.CategoryAdmin
       else if isWriteOperation name then AuditLog.CategoryWrite
       else AuditLog.CategoryRead) /\
    AuditLog.Duration event = toolElapsed outcome /\
    AuditLog.Timestamp event = Some (now + toolElapsed outcome)%Q /\
    match toolReturn outcome with
    | inl _ => AuditLog.Success event = true /\ AuditLog.Error event = ""
    | inr e => AuditLog.Success event = false /\ AuditLog.Error event = e
    end.
Proof.
  intros Hdec Hpass Hlog Hen name outcome.
  rewrite (handleToolsCall_decoded codec _ _ _ _ Hdec). cbv zeta. rewrite Hpass.
  fold name. fold outcome.
  destruct (rateGate_frame now name s) as (_ & _ & _ & _ & Hg).
  destruct (toolsCall_frame name (Arguments callParams) (snd (rateGate now name s)))
    as (_ & _ & _ & _ & Ht).
  assert (Hl : auditLogger (snd (toolsCall name (Arguments callParams)
                                   (snd (rateGate now name s)))) = Some l)
    by (rewrite Ht, Hg; exact Hlog).
  destruct (toolReturn outcome) as [resultJSON|e]; cbn [snd];
    unfold auditLog; rewrite Hl; cbn [auditLogger withAuditLogger];
    (erewrite AuditLogFacts.Log_enabled by first [exact Hen | reflexivity]);
    eexists _, _; (split; [reflexivity|]); cbn [AuditLog.sink];
    (split; [reflexivity|]); repeat split;
    unfold callCategory; destruct (isAdminOperation name), (isWriteOperation name);
    reflexivity.
Qed.

End Dispatch.

Lemma dispatch_frame_witness :
  snd (handleMessage Sample.codec 0 Sample.requestShutdown (Sample.server true))
  = Sample.server true.
Proof.
  destruct (dispatch_frame Sample.codec 0 Sample.requestShutdown (Sample.server true))
    as (_ & _ & H).
  apply (H {| JSONRPC := "2.0"; ID := Some (IDNumber 1); Method := "shutdown";
              Params := None |}).
  - reflexivity.
  - right. discriminate.
Defined.

Lemma protocol_errors_witness :
  handleMessage Sample.codec 0 "not json" (Sample.server true) =
  (Some {| RespJSONRPC := "2.0"; RespID := None; Result := None;
           RespError := Some {| Code := -32700; Message := "Parse error";
                                Data := Some "invalid character" |} |},
   Sample.server true).
Proof.
  exact (proj1 (protocol_errors Sample.codec 0 "not json" (Sample.server true))
           "invalid character" eq_refl).
Defined.

Lemma completed_call_audited_witness :
  exists l1 event,
    auditLogger (snd (handleToolsCall Sample.codec 0 (Some "{'name':'create_index'}")
                        (Sample.server true))) = Some l1 /\
    AuditLog.sink l1 = [event] /\
    AuditLog.EvCategory event = AuditLog.CategoryAdmin.
Proof.
  destruct (completed_call_audited Sample.codec 0 (Some "{'name':'create_index'}")
              (Sample.server true)
              {| Name := "create_index"; Arguments := None |}
              {| AuditLog.sink := []; AuditLog.enabled := true;
                 AuditLog.minLevel := ""; AuditLog.buffer := [];
                 AuditLog.bufSize := 100 |}
              eq_refl eq_refl eq_refl eq_refl)
    as (l1 & event & Hlog & Hsink & _ & _ & Hcat & _).
  exists l1, event. split; [exact Hlog|]. split; [exact Hsink | exact Hcat].
Defined.

End McpMore.

(** ** Further properties: transports *)

Module TransportMore.
Import Mcp Transport TransportFacts.

Lemma trySend_bounded (msg : string) (c c1 : Chan) :
  chanBounded c -> trySend msg c = Some c1 -> chanBounded c1.
Proof.
  intros [Hlen Hpos]. unfold trySend.
  destruct (length (queue c) <? capacity c)%nat eqn:E; [|discriminate].
  apply Nat.ltb_lt in E. intros [= <-]. unfold chanBounded. cbn [queue capacity].
  rewrite length_app. simpl. lia.
Qed.

Lemma sseEnqueue_bounded (msg : string) (c : Chan) :
  chanBounded c -> chanBounded (sseEnqueue msg c).
Proof.
  intros Hb. unfold sseEnqueue. destruct (trySend msg c) eqn:E; [|exact Hb].
  now apply (trySend_bounded msg c).
Qed.

(** The polling policy always finds room in a queue of positive
    capacity. *)
Lemma wsEnqueue_bounded (msg : string) (c : Chan) :
  chanBounded c -> exists c1, wsEnqueue msg c = Some c1 /\ chanBounded c1.
Proof.
  intros [Hlen Hpos].
  destruct (Nat.eq_dec (length (queue c)) (capacity c)) as [Hfull | Hroom].
  - rewrite (wsEnqueue_full _ _ Hfull Hpos). eexists. split; [reflexivity|].
    unfold chanBounded. cbn [queue capacity]. rewrite length_app.
    destruct (queue c); simpl in *; lia.
  - destruct (enqueue_room msg c) as [_ H]; [lia|]. rewrite H.
    eexists. split; [reflexivity|].
    unfold chanBounded. cbn [queue capacity]. rewrite length_app. simpl. lia.
Qed.

Section Sessions.
Context (codec : Codec).

(** The outcome of the SSE handler on a request that reaches a session. *)
Lemma sseHandleMessage_found (now : Q) (sessionID requestBody : string)
    (t : SSEServer) (client : SSEClient) :
  sessionID <> "" -> sseClients t !! sessionID = Some client ->
  exists s1,
    sseServer (snd (sseHandleMessage codec now "POST" sessionID requestBody t)) = s1 /\
    (sseClients (snd (sseHandleMessage codec now "POST" sessionID requestBody t))
       = sseClients t \/
     exists responseBytes,
       sseClients (snd (sseHandleMessage codec now "POST" sessionID requestBody t))
       = <[sessionID := {| sseID := sseID client;
                           sseMessages := sseEnqueue responseBytes (sseMessages client) |}]>
           (sseClients t)).
Proof.
  intros Hid Hfind. unfold sseHandleMessage.
  change (String.eqb "POST" "POST") with true. cbn [negb].
  apply String.eqb_neq in Hid. rewrite Hid, Hfind.
  destruct (handleMessage codec now requestBody (sseServer t)) as [response s1].
  destruct response as [resp|]; [|eexists; split; [reflexivity | left; reflexivity]].
  destruct (encodeResponse codec resp) as [bytes|err];
    eexists; (split; [reflexivity|]); [right; eexists; reflexivity | left; reflexivity].
Qed.

Lemma sseHandleMessage_rejected (now : Q) (httpMethod sessionID requestBody : string)
    (t : SSEServer) :
  httpMethod <> "POST" \/ sessionID = "" \/ sseClients t !! sessionID = None ->
  snd (sseHandleMessage codec now httpMethod sessionID requestBody t) = t /\
  In (status (fst (sseHandleMessage codec now httpMethod sessionID requestBody t)))
     [405; 400; 404].
Proof.
  intros H. unfold sseHandleMessage.
  destruct (String.eqb httpMethod "POST") eqn:Em; cbn [negb];
    [|split; [reflexivity | simpl; auto]].
  destruct (String.eqb sessionID "") eqn:Es; [split; [reflexivity | simpl; auto]|].
  destruct (sseClients t !! sessionID) eqn:Ef; [|split; [reflexivity | simpl; auto]].
  exfalso. destruct H as [H | [H | H]].
  - apply String.eqb_eq in Em. contradiction.
  - apply String.eqb_neq in Es. contradiction.
  - discriminate.
Qed.

Lemma wsHandleSend_rejected (now : Q) (httpMethod clientID requestData : string)
    (t : WebSocketServer) :
  httpMethod <> "POST" \/ clientID = "" \/ wsClients t !! clientID = None ->
  exists response,
    wsHandleSend codec now httpMethod clientID requestData t = Some (response, t) /\
    In (status response) [405; 400; 404].
Proof.
  intros H. unfold wsHandleSend.
  destruct (String.eqb httpMethod "POST") eqn:Em; cbn [negb];
    [|eexists; split; [reflexivity | simpl; auto]].
  destruct (String.eqb clientID "") eqn:Es; [eexists; split; [reflexivity | simpl; auto]|].
  destruct (wsClients t !! clientID) eqn:Ef; [|eexists; split; [reflexivity | simpl; auto]].
  exfalso. destruct H as [H | [H | H]].
  - apply String.eqb_eq in Em. contradiction.
  - apply String.eqb_neq in Es. contradiction.
  - discriminate.
Qed.

(** The outcome of the polling handler on a request that reaches a
    session: the entry of the session is replaced, nothing else. *)
Lemma wsHandleSend_found (now : Q) (clientID requestData : string)
    (t : WebSocketServer) (client : WSClient) (out : HttpResponse * WebSocketServer) :
  clientID <> "" -> wsClients t !! clientID = Some client ->
  wsHandleSend codec now "POST" clientID requestData t = Some out ->
  exists ch,
    wsClients (snd out) =
      <[clientID := {| wsID := wsID client; wsMessages := ch; lastPing := now |}]>
        (wsClients t) /\
    (ch = wsMessages client \/
     exists responseData, wsEnqueue responseData (wsMessages client) = Some ch).
Proof.
  intros Hid Hfind. unfold wsHandleSend.
  change (String.eqb "POST" "POST") with true. cbn [negb].
  apply String.eqb_neq in Hid. rewrite Hid, Hfind.
  destruct (handleMessage codec now requestData (wsServer t)) as [response s1].
  destruct (marshalResponse codec response) as [bytes|err].
  - destruct (wsEnqueue bytes (wsMessages client)) as [ch|] eqn:E; [|discriminate].
    intros [= <-]. exists ch. split; [reflexivity|]. right. eauto.
  - intros [= <-]. exists (wsMessages client). split; [reflexivity | left; reflexivity].
Qed.

(** X23. A request is confined to its own session. On both HTTP
    transports a request that is not a POST is refused with 405 and the
    body [Method not allowed]; a POST that names no session with 400; a
    POST that names an unknown session with 404; each body ends with a
    line feed, each refusal comes before the dispatcher runs and changes
    nothing. A request that is served changes no other session's
    entry. *)
Theorem sessions_isolated (now : Q) (httpMethod id requestBody : string) :
  (forall t : SSEServer,
     (httpMethod <> "POST" ->
      sseHandleMessage codec now httpMethod id requestBody t
        = ({| status := 405; body := "Method not allowed" +:+ LF |}, t)) /\
     (httpMethod = "POST" -> id = "" ->
      sseHandleMessage codec now httpMethod id requestBody t
        = ({| status := 400; body := "Missing sessionId" +:+ LF |}, t)) /\
     (httpMethod = "POST" -> id <> "" -> sseClients t !! id = None ->
      sseHandleMessage codec now httpMethod id requestBody t
        = ({| status := 404; body := "Session not found" +:+ LF |}, t)) /\
     (forall other, other <> id ->
        sseClients (snd (sseHandleMessage codec now httpMethod id requestBody t))
          !! other = sseClients t !! other)) /\
  (forall t : WebSocketServer,
     (httpMethod <> "POST" ->
      wsHandleSend codec now httpMethod id requestBody t
        = Some ({| status := 405; body := "Method not allowed" +:+ LF |}, t)) /\
     (httpMethod = "POST" -> id = "" ->
      wsHandleSend codec now httpMethod id requestBody t
        = Some ({| status := 400; body := "X-Client-ID header required" +:+ LF |}, t)) /\
     (httpMethod = "POST" -> id <> "" -> wsClients t !! id = None ->
      wsHandleSend codec now httpMethod id requestBody t
        = Some ({| status := 404; body := "Client not found" +:+ LF |}, t)) /\
     (forall other out, other <> id ->
        wsHandleSend codec now httpMethod id requestBody t = Some out ->
        wsClients (snd out) !! other = wsClients t !! other)).
Proof.
  split; intros t; (split; [|split; [|split]]).
  - intros Hm. apply String.eqb_neq in Hm. unfold sseHandleMessage. now rewrite Hm.
  - intros -> ->. reflexivity.
  - intros -> Hid Hfind. apply String.eqb_neq in Hid. unfold sseHandleMessage.
    change (String.eqb "POST" "POST") with true. cbn [negb]. now rewrite Hid, Hfind.
  - intros other Hother.
    destruct (String.eqb httpMethod "POST") eqn:Em.
    2:{ apply String.eqb_neq in Em.
        now rewrite (proj1 (sseHandleMessage_rejected now _ id requestBody t (or_introl Em))). }
    apply String.eqb_eq in Em. subst httpMethod.
    destruct (String.eqb id "") eqn:Es.
    { apply String.eqb_eq in Es.
      now rewrite (proj1 (sseHandleMessage_rejected now _ id requestBody t
                            (or_intror (or_introl Es)))). }
    apply String.eqb_neq in Es.
    destruct (sseClients t !! id) as [client|] eqn:Ef.
    2:{ now rewrite (proj1 (sseHandleMessage_rejected now _ id requestBody t
                              (or_intror (or_intror Ef)))). }
    destruct (sseHandleMessage_found now id requestBody t client Es Ef)
      as (s1 & _ & [-> | [bytes ->]]); [reflexivity|].
    now rewrite lookup_insert_ne by congruence.
  - intros Hm. apply String.eqb_neq in Hm. unfold wsHandleSend. now rewrite Hm.
  - intros -> ->. reflexivity.
  - intros -> Hid Hfind. apply String.eqb_neq in Hid. unfold wsHandleSend.
    change (String.eqb "POST" "POST") with true. cbn [negb]. now rewrite Hid, Hfind.
  - intros other out Hother Hout.
    destruct (String.eqb httpMethod "POST") eqn:Em.
    2:{ apply String.eqb_neq in Em.
        destruct (wsHandleSend_rejected now _ id requestBody t (or_introl Em))
          as (r & Hr & _). rewrite Hr in Hout. now injection Hout as <-. }
    apply String.eqb_eq in Em. subst httpMethod.
    destruct (String.eqb id "") eqn:Es.
    { apply String.eqb_eq in Es.
      destruct (wsHandleSend_rejected now "POST" id requestBody t (or_intror (or_introl Es)))
        as (r & Hr & _). rewrite Hr in Hout. now injection Hout as <-. }
    apply String.eqb_neq in Es.
    destruct (wsClients t !! id) as [client|] eqn:Ef.
    2:{ destruct (wsHandleSend_rejected now "POST" id requestBody t (or_intror (or_intror Ef)))
          as (r & Hr & _). rewrite Hr in Hout. now injection Hout as <-. }
    destruct (wsHandleSend_found now id requestBody t client out Es Ef Hout)
      as (ch & -> & _).
    now rewrite lookup_insert_ne by congruence.
Qed.

(** X24. Queues stay bounded and, with one handler running at a time,
    sends never block: if every session's queue holds at most its
    positive capacity, then after a push-stream request every queue still
    does, and a polling request always returns (its final send finds
    room) and leaves every queue within its capacity. *)
Theorem queues_stay_bounded (now : Q) (httpMethod id requestBody : string) :
  (forall t : SSEServer,
     sseBounded t ->
     sseBounded (snd (sseHandleMessage codec now httpMethod id requestBody t))) /\
  (forall t : WebSocketServer,
     wsBounded t ->
     exists out,
       wsHandleSend codec now httpMethod id requestBody t = Some out /\
       wsBounded (snd out)).
Proof.
  split; intros t Hb.
  - destruct (String.eqb httpMethod "POST") eqn:Em.
    2:{ apply String.eqb_neq in Em.
        now rewrite (proj1 (sseHandleMessage_rejected now _ id requestBody t (or_introl Em))). }
    apply String.eqb_eq in Em. subst httpMethod.
    destruct (String.eqb id "") eqn:Es.
    { apply String.eqb_eq in Es.
      now rewrite (proj1 (sseHandleMessage_rejected now _ id requestBody t
                            (or_intror (or_introl Es)))). }
    apply String.eqb_neq in Es.
    destruct (sseClients t !! id) as [client|] eqn:Ef.
    2:{ now rewrite (proj1 (sseHandleMessage_rejected now _ id requestBody t
                              (or_intror (or_intror Ef)))). }
    intros other c Hc.
    destruct (sseHandleMessage_found now id requestBody t client Es Ef)
      as (s1 & _ & [Hsame | [bytes Hnew]]).
    + rewrite Hsame in Hc. now apply (Hb other).
    + rewrite Hnew in Hc. destruct (decide (id = other)) as [<- | Hne].
      * rewrite lookup_insert_eq in Hc. injection Hc as <-. cbn [sseMessages].
        apply sseEnqueue_bounded. now apply (Hb id).
      * rewrite lookup_insert_ne in Hc by exact Hne. now apply (Hb other).
  - destruct (String.eqb httpMethod "POST") eqn:Em.
    2:{ apply String.eqb_neq in Em.
        destruct (wsHandleSend_rejected now _ id requestBody t (or_introl Em))
          as (r & Hr & _). eauto. }
    apply String.eqb_eq in Em. subst httpMethod.
    destruct (String.eqb id "") eqn:Es.
    { apply String.eqb_eq in Es.
      destruct (wsHandleSend_rejected now "POST" id requestBody t (or_intror (or_introl Es)))
        as (r & Hr & _). eauto. }
    apply String.eqb_neq in Es.
    destruct (wsClients t !! id) as [client|] eqn:Ef.
    2:{ destruct (wsHandleSend_rejected now "POST" id requestBody t (or_intror (or_intror Ef)))
          as (r & Hr & _). eauto. }
    assert (Hsome : exists out, wsHandleSend codec now "POST" id requestBody t = Some out).
    { unfold wsHandleSend. change (String.eqb "POST" "POST") with true. cbn [negb].
      pose proof Es as Es'. apply String.eqb_neq in Es'. rewrite Es', Ef.
      destruct (handleMessage codec now requestBody (wsServer t)) as [response s1].
      destruct (marshalResponse codec response) as [bytes|err]; [|eauto].
      destruct (wsEnqueue_bounded bytes (wsMessages client) (Hb id client Ef))
        as (c1 & -> & _). eauto. }
    destruct Hsome as [out Hout]. exists out. split; [exact Hout|].
    destruct (wsHandleSend_found now id requestBody t client out Es Ef Hout)
      as (ch & Hmap & Hch).
    intros other c Hc. rewrite Hmap in Hc.
    destruct (decide (id = other)) as [<- | Hne].
    + rewrite lookup_insert_eq in Hc. injection Hc as <-. cbn [wsMessages].
      destruct Hch as [-> | [bytes Hbytes]]; [now apply (Hb id)|].
      destruct (wsEnqueue_bounded bytes (wsMessages client) (Hb id client Ef))
        as (c1 & Hc1 & Hb1). rewrite Hbytes in Hc1. now injection Hc1 as ->.
    + rewrite lookup_insert_ne in Hc by exact Hne. now apply (Hb other).
Qed.

End Sessions.

Lemma sessions_isolated_witness :
  sseHandleMessage Sample.codec 0 "GET" "s1" Sample.requestShutdown Sample.sseFull
    = ({| status := 405; body := "Method not allowed" +:+ LF |}, Sample.sseFull) /\
  wsHandleSend Sample.codec 0 "POST" "c9" Sample.requestShutdown Sample.wsFull
    = Some ({| status := 404; body := "Client not found" +:+ LF |}, Sample.wsFull).
Proof.
  destruct (sessions_isolated Sample.codec 0 "GET" "s1" Sample.requestShutdown)
    as [Hsse _].
  destruct (sessions_isolated Sample.codec 0 "POST" "c9" Sample.requestShutdown)
    as [_ Hws].
  split.
  - apply (proj1 (Hsse Sample.sseFull)). discriminate.
  - apply (proj1 (proj2 (proj2 (Hws Sample.wsFull)))); [reflexivity | discriminate |].
    reflexivity.
Defined.

Lemma queues_stay_bounded_witness :
  exists out,
    wsHandleSend Sample.codec 0 "POST" "c1" Sample.requestShutdown Sample.wsFull
      = Some out /\
    wsBounded (snd out).
Proof.
  refine (proj2 (queues_stay_bounded Sample.codec 0 "POST" "c1" Sample.requestShutdown)
            Sample.wsFull _).
  intros id client Hfind. unfold Sample.wsFull in Hfind. cbn [wsClients] in Hfind.
  apply lookup_singleton_Some in Hfind as [_ <-].
  split; [reflexivity | repeat constructor].
Defined.

Section Delivery.
Context (codec : Codec).

Lemma tryRecv_pending (c : Chan) (msg : string) :
  tryRecv {| queue := queue c ++ [msg]; capacity := capacity c |} =
  Some (hd msg (queue c ++ [msg]),
        {| queue := tl (queue c ++ [msg]); capacity := capacity c |}).
Proof. unfold tryRecv. cbn [queue capacity]. destruct (queue c); reflexivity. Qed.

(** The outcome of a receive call that reaches a session. *)
Lemma wsHandleReceive_found (now : Q) (clientID : string) (t : WebSocketServer)
    (client : WSClient) :
  clientID <> "" -> wsClients t !! clientID = Some client ->
  wsHandleReceive now clientID t =
    match tryRecv (wsMessages client) with
    | Some (msg, ch) =>
        ({| status := 200; body := msg |},
         {| wsServer := wsServer t;
            wsClients := <[clientID := {| wsID := wsID client; wsMessages := ch;
                                          lastPing := now |}]> (wsClients t) |})
    | None =>
        ({| status := 200; body := noMessagesBody |},
         {| wsServer := wsServer t;
            wsClients := <[clientID := {| wsID := wsID client;
                                          wsMessages := wsMessages client;
                                          lastPing := now |}]> (wsClients t) |})
    end.
Proof.
  intros Hid Hfind. apply String.eqb_neq in Hid. unfold wsHandleReceive.
  rewrite Hid, Hfind. reflexivity.
Qed.

(** X25. Polling delivers in FIFO order: a response produced for a
    session whose queue has room is returned directly by the send call
    (status 200) and queued behind the pending messages; the next receive
    call returns the oldest pending message, which is that response when
    the queue was empty, and removes it. A receive call on an empty queue
    answers with the no-messages body. *)
Theorem ws_send_then_receive (now later : Q) (clientID requestData : string)
    (t : WebSocketServer) (client : WSClient) (resp : Response)
    (responseData : string) :
  clientID <> "" -> wsClients t !! clientID = Some client ->
  (length (queue (wsMessages client)) < capacity (wsMessages client))%nat ->
  fst (handleMessage codec now requestData (wsServer t)) = Some resp ->
  encodeResponse codec resp = inl responseData ->
  let pending := queue (wsMessages client) ++ [responseData] in
  exists t1 client2,
    wsHandleSend codec now "POST" clientID requestData t
      = Some ({| status := 200; body := responseData |}, t1) /\
    fst (wsHandleReceive later clientID t1)
      = {| status := 200; body := hd responseData pending |} /\
    wsClients (snd (wsHandleReceive later clientID t1)) !! clientID = Some client2 /\
    queue (wsMessages client2) = tl pending /\
    lastPing client2 = later /\
    (queue (wsMessages client) = [] ->
     fst (wsHandleReceive later clientID (snd (wsHandleReceive later clientID t1)))
       = {| status := 200; body := noMessagesBody |}).
Proof.
  intros Hid Hfind Hroom Hresp Henc pending.
  pose proof Hid as Hid'. apply String.eqb_neq in Hid'.
  unfold wsHandleSend. change (String.eqb "POST" "POST") with true. cbn [negb].
  rewrite Hid', Hfind.
  destruct (handleMessage codec now requestData (wsServer t)) as [response s1].
  cbn [fst] in Hresp. subst response. cbn [marshalResponse]. rewrite Henc.
  rewrite (proj2 (enqueue_room responseData (wsMessages client) Hroom)).
  eexists _, _. split; [reflexivity|].
  erewrite wsHandleReceive_found;
    [|exact Hid | cbn [wsClients]; apply lookup_insert_eq].
  cbn [wsMessages wsID]. rewrite tryRecv_pending. cbn [fst snd wsClients].
  split; [reflexivity|]. rewrite lookup_insert_eq. split; [reflexivity|].
  cbn [wsMessages queue lastPing]. split; [reflexivity|]. split; [reflexivity|].
  intros Hempty.
  erewrite wsHandleReceive_found;
    [|exact Hid | cbn [wsClients]; apply lookup_insert_eq].
  cbn [wsMessages]. rewrite Hempty. reflexivity.
Qed.

(** X26. Push-stream delivery end to end: on a session just registered
    by the connect step nothing is pending; a POST for it that produces a
    response is accepted with 202; the next turn of the stream loop emits
    that response as one [message] event and the queue is empty again;
    once the stream has ended, a POST for the session is refused with
    404. *)
Theorem sse_post_then_deliver (now : Q) (sessionID requestBody : string)
    (t : SSEServer) (resp : Response) (responseBytes : string) :
  sessionID <> "" ->
  fst (handleMessage codec now requestBody (sseServer t)) = Some resp ->
  encodeResponse codec resp = inl responseBytes ->
  let t1 := sseConnect sessionID t in
  let posted := sseHandleMessage codec now "POST" sessionID requestBody t1 in
  sseDeliver sessionID t1 = None /\
  status (fst posted) = 202 /\
  exists t3,
    sseDeliver sessionID (snd posted)
      = Some ("event: message" +:+ LF +:+ "data: " +:+ responseBytes +:+ LF +:+ LF, t3) /\
    sseDeliver sessionID t3 = None /\
    status (fst (sseHandleMessage codec now "POST" sessionID requestBody
                   (sseDisconnect sessionID t3))) = 404.
Proof.
  intros Hid Hresp Henc t1 posted.
  pose proof Hid as Hid'. apply String.eqb_neq in Hid'.
  split.
  { unfold sseDeliver, t1, sseConnect. cbn [sseClients]. now rewrite lookup_insert_eq. }
  unfold posted, sseHandleMessage at 1 2. change (String.eqb "POST" "POST") with true.
  cbn [negb]. rewrite Hid'. unfold t1, sseConnect. cbn [sseClients sseServer].
  rewrite lookup_insert_eq.
  destruct (handleMessage codec now requestBody (sseServer t)) as [response s1].
  cbn [fst] in Hresp. subst response. rewrite Henc. cbn [fst snd status].
  split; [reflexivity|].
  unfold sseDeliver at 1. cbn [sseClients]. rewrite lookup_insert_eq.
  cbn [sseMessages sseID]. eexists. split; [reflexivity|].
  split.
  - unfold sseDeliver. cbn [sseClients]. now rewrite lookup_insert_eq.
  - unfold sseHandleMessage, sseDisconnect. change (String.eqb "POST" "POST") with true.
    cbn [negb sseClients]. now rewrite Hid', lookup_delete_eq.
Qed.

(** A client that is not there is refused by both polling handlers. *)
Lemma ws_unknown_refused (now : Q) (id requestData : string) (t : WebSocketServer) :
  id <> "" -> wsClients t !! id = None ->
  wsHandleSend codec now "POST" id requestData t
    = Some ({| status := 404; body := "Client not found" +:+ LF |}, t) /\
  wsHandleReceive now id t
    = ({| status := 404; body := "Client not found" +:+ LF |}, t).
Proof.
  intros Hid Hfind. apply String.eqb_neq in Hid. unfold wsHandleSend, wsHandleReceive.
  change (String.eqb "POST" "POST") with true. cbn [negb]. now rewrite Hid, Hfind.
Qed.

Lemma wsSweep_lookup (now : Q) (t : WebSocketServer) (id : string) (client : WSClient) :
  wsClients (wsSweep now t) !! id = Some client <->
  wsClients t !! id = Some client /\ (now - lastPing client <= 300)%Q.
Proof.
  unfold wsSweep. cbn [wsClients]. rewrite map_lookup_filter_Some. cbn [snd].
  unfold stale. rewrite negb_false_iff, Qle_bool_iff. reflexivity.
Qed.

(** X27. Session teardown on the polling transport. A sweep keeps
    exactly the clients whose last ping is at most 300 seconds old, each
    unchanged, so the live-session count of the health report never grows
    by it. Being served refreshes the last ping: a client that has just
    been served by a send or a receive call survives every sweep made up
    to 300 seconds later, however old its last ping was before. A client
    removed by [Disconnect], or by a sweep that found it stale, is refused
    with 404 on its next send and on its next receive, and removing it
    touches no other client. *)
Theorem stale_clients_swept (now later : Q) (id requestData : string)
    (t : WebSocketServer) :
  (forall i client,
     wsClients (wsSweep now t) !! i = Some client <->
     wsClients t !! i = Some client /\ (now - lastPing client <= 300)%Q) /\
  (wsHealthClients (wsSweep now t) <= wsHealthClients t)%nat /\
  (id <> "" -> is_Some (wsClients t !! id) -> (later - now <= 300)%Q ->
   (forall out, wsHandleSend codec now "POST" id requestData t = Some out ->
      is_Some (wsClients (wsSweep later (snd out)) !! id)) /\
   is_Some (wsClients (wsSweep later (snd (wsHandleReceive now id t))) !! id)) /\
  (id <> "" ->
   forall t1,
     t1 = Disconnect id t \/
     (t1 = wsSweep now t /\
      exists client, wsClients t !! id = Some client /\
                     (300 < now - lastPing client)%Q) ->
     wsHandleSend codec later "POST" id requestData t1
       = Some ({| status := 404; body := "Client not found" +:+ LF |}, t1) /\
     wsHandleReceive later id t1
       = ({| status := 404; body := "Client not found" +:+ LF |}, t1)) /\
  (forall other, other <> id ->
     wsClients (Disconnect id t) !! other = wsClients t !! other).
Proof.
  split; [|split; [|split; [|split]]].
  - intros i client. apply wsSweep_lookup.
  - unfold wsHealthClients, wsSweep. cbn [wsClients].
    apply map_subseteq_size, map_filter_subseteq.
  - intros Hid [client Hfind] Hfresh. split.
    + intros out Hout.
      destruct (wsHandleSend_found codec now id requestData t client out Hid Hfind Hout)
        as (ch & Hmap & _).
      eexists. apply wsSweep_lookup. rewrite Hmap, lookup_insert_eq.
      split; [reflexivity | exact Hfresh].
    + rewrite (wsHandleReceive_found now id t client Hid Hfind).
      destruct (tryRecv (wsMessages client)) as [[msg ch]|]; cbn [snd];
        eexists; apply wsSweep_lookup; cbn [wsClients]; rewrite lookup_insert_eq;
        (split; [reflexivity | exact Hfresh]).
  - intros Hid t1 Hgone. apply ws_unknown_refused; [exact Hid|].
    destruct Hgone as [-> | [-> (client & Hfind & Hstale)]].
    + unfold Disconnect. cbn [wsClients]. apply lookup_delete_eq.
    + apply eq_None_not_Some. intros [c Hc]. apply wsSweep_lookup in Hc as [Hc Hle].
      rewrite Hfind in Hc. injection Hc as <-.
      exact (Qlt_not_le _ _ Hstale Hle).
  - intros other Hne. unfold Disconnect. cbn [wsClients]. now apply lookup_delete_ne.
Qed.

End Delivery.

Lemma stale_clients_swept_witness :
  is_Some (wsClients (wsSweep 1000 (snd (wsHandleReceive 800 "c1" Sample.wsFull)))
             !! "c1") /\
  wsHandleReceive 1000 "c1" (Disconnect "c1" Sample.wsFull)
    = ({| status := 404; body := "Client not found" +:+ LF |},
       Disconnect "c1" Sample.wsFull).
Proof.
  destruct (stale_clients_swept Sample.codec 800 1000 "c1" Sample.requestShutdown
              Sample.wsFull) as (_ & _ & Hserved & Hgone & _).
  split.
  - apply Hserved; [discriminate | vm_compute; eauto | unfold Qle; simpl; lia].
  - apply (Hgone ltac:(discriminate) (Disconnect "c1" Sample.wsFull)). left. reflexivity.
Defined.

Lemma ws_send_then_receive_witness :
  exists t1,
    wsHandleSend Sample.codec 0 "POST" "c1" Sample.requestShutdown
      (wsConnect 0 "c1" Sample.wsFull)
    = Some ({| status := 200; body := "{'jsonrpc':'2.0','result':{}}" |}, t1) /\
    fst (wsHandleReceive 1 "c1" t1)
    = {| status := 200; body := "{'jsonrpc':'2.0','result':{}}" |}.
Proof.
  destruct (ws_send_then_receive Sample.codec 0 1 "c1" Sample.requestShutdown
              (wsConnect 0 "c1" Sample.wsFull)
              {| wsID := "c1"; wsMessages := makeChan 100; lastPing := 0 |}
              {| RespJSONRPC := "2.0"; RespID := Some (IDNumber 1);
                 Result := None; RespError := None |}
              "{'jsonrpc':'2.0','result':{}}")
    as (t1 & client2 & Hsend & Hrecv & _);
    [discriminate | reflexivity | repeat constructor | reflexivity | reflexivity |].
  exists t1. split; [exact Hsend | exact Hrecv].
Defined.

Lemma sse_post_then_deliver_witness :
  exists t3,
    sseDeliver "s2"
      (snd (sseHandleMessage Sample.codec 0 "POST" "s2" Sample.requestShutdown
              (sseConnect "s2" Sample.sseFull)))
    = Some ("event: message" +:+ LF +:+ "data: {'jsonrpc':'2.0','result':{}}"
            +:+ LF +:+ LF, t3).
Proof.
  destruct (sse_post_then_deliver Sample.codec 0 "s2" Sample.requestShutdown
              Sample.sseFull
              {| RespJSONRPC := "2.0"; RespID := Some (IDNumber 1);
                 Result := None; RespError := None |}
              "{'jsonrpc':'2.0','result':{}}")
    as (_ & _ & t3 & Hdeliver & _);
    [discriminate | reflexivity | reflexivity |].
  exists t3. exact Hdeliver.
Defined.

End TransportMore.

(** ** Further properties: tool registry *)

Module ToolsMore.
Import Mcp McpFacts Tools.

Lemma register_lookup (handlers : string -> ToolHandler) (names : list string)
    (registry : gmap string ToolHandler) (name : string) :
  is_Some (register handlers names registry !! name) <->
  In name names \/ is_Some (registry !! name).
Proof.
  unfold register. revert registry.
  induction names as [|n names IH]; intros registry; simpl.
  - tauto.
  - rewrite IH, lookup_insert. case_decide.
    + subst n. split; [auto | intros _; right; eauto].
    + split; [tauto | intros [[Hn | Hin] | Hsome]; [congruence | auto | auto]].
Qed.

Lemma register_handler (handlers : string -> ToolHandler) (names : list string)
    (registry : gmap string ToolHandler) (name : string) (h : ToolHandler) :
  (forall n h0, registry !! n = Some h0 -> h0 = handlers n) ->
  register handlers names registry !! name = Some h -> h = handlers name.
Proof.
  unfold register. revert registry.
  induction names as [|n names IH]; intros registry Hreg; simpl.
  - apply Hreg.
  - apply IH. intros n0 h0. rewrite lookup_insert. case_decide.
    + intros [= <-]. now subst.
    + apply Hreg.
Qed.

Lemma role_cases (role : Role) :
  (CanWrite role = false /\ CanAdmin role = false) \/
  (CanWrite role = true /\ CanAdmin role = false) \/
  (CanWrite role = true /\ CanAdmin role = true).
Proof.
  unfold CanWrite, CanAdmin.
  destruct (String.eqb role RoleAdmin); [rewrite orb_true_r; auto|].
  destruct (String.eqb role RoleReadWrite); auto.
Qed.

Lemma registered_iff_listed (handlers : string -> ToolHandler) (role : Role)
    (name : string) :
  is_Some (NewRegistry handlers role !! name) <-> In name (ListNames role).
Proof.
  unfold NewRegistry, ListNames, registerSchemaTools, registerReadTools,
    registerWriteTools, registerIndexTools, registerClusterTools.
  destruct (role_cases role) as [[-> ->] | [[-> ->] | [-> ->]]]; cbv zeta;
    rewrite !register_lookup, lookup_empty, is_Some_alt, !in_app_iff;
    simpl; tauto.
Qed.

(** X28. The tool registry follows the role. For every role the tools
    that can be called are exactly the tools that [List] advertises, none
    twice, each bound to its own handler; a write operation is registered
    exactly for a role that can write and an administrative operation
    exactly for a role that can administer; so on a server of a role that
    cannot write, a call of a write operation ends in the registry with
    the error "unknown tool". *)
Theorem registry_follows_role (handlers : string -> ToolHandler) (role : Role)
    (name : string) :
  (is_Some (NewRegistry handlers role !! name) <-> In name (ListNames role)) /\
  NoDup (ListNames role) /\
  (forall h, NewRegistry handlers role !! name = Some h -> h = handlers name) /\
  (isWriteOperation name = true ->
     (is_Some (NewRegistry handlers role !! name) <-> CanWrite role = true)) /\
  (isAdminOperation name = true ->
     (is_Some (NewRegistry handlers role !! name) <-> CanAdmin role = true)) /\
  (forall (s : Server) (args : RawMessage),
     tools s = NewRegistry handlers role -> CanWrite role = false ->
     isWriteOperation name = true ->
     toolReturn (fst (toolsCall name args s)) = inr ("unknown tool: " +:+ name)).
Proof.
  assert (Hwrite : isWriteOperation name = true ->
            (is_Some (NewRegistry handlers role !! name) <-> CanWrite role = true)).
  { intros Hw. rewrite registered_iff_listed. apply isWriteOperation_iff in Hw.
    unfold ListNames.
    destruct (role_cases role) as [[-> ->] | [[-> ->] | [-> ->]]]; cbv zeta;
      rewrite !in_app_iff; simpl;
      destruct Hw as [-> | [-> | [-> | ->]]];
      (split; [intros H; first [reflexivity | exfalso; intuition discriminate]
              | intros H; first [discriminate | tauto]]). }
  split; [apply registered_iff_listed|]. split; [|split; [|split; [|split]]].
  - unfold ListNames.
    destruct (role_cases role) as [[-> ->] | [[-> ->] | [-> ->]]]; cbv zeta;
      apply (bool_decide_unpack _); vm_compute; exact I.
  - intros h. unfold NewRegistry, registerSchemaTools, registerReadTools,
      registerWriteTools, registerIndexTools, registerClusterTools. cbv zeta.
    assert (Hempty : forall n h0, (∅ : gmap string ToolHandler) !! n = Some h0 ->
                                  h0 = handlers n)
      by (intros n h0; rewrite lookup_empty; discriminate).
    destruct (CanWrite role), (CanAdmin role);
      repeat (apply register_handler; intros ? ?); apply Hempty.
  - exact Hwrite.
  - intros Ha. rewrite registered_iff_listed. apply isAdminOperation_iff in Ha.
    unfold ListNames.
    destruct (role_cases role) as [[-> ->] | [[-> ->] | [-> ->]]]; cbv zeta;
      rewrite !in_app_iff; simpl;
      destruct Ha as [-> | [-> | [-> | [-> | ->]]]];
      (split; [intros H; first [reflexivity | exfalso; intuition discriminate]
              | intros H; first [discriminate | tauto]]).
  - intros s args Htools Hcan Hw. unfold toolsCall. rewrite Htools.
    pose proof (proj1 (Hwrite Hw)) as Hsome. rewrite Hcan in Hsome.
    destruct (NewRegistry handlers role !! name) as [h|]; [|reflexivity].
    exfalso. assert (false = true) by (apply Hsome; eauto). discriminate.
Qed.

Lemma registry_follows_role_witness :
  NewRegistry (fun _ => Sample.succeed "{}") RoleReadOnly !! "put_record" = None /\
  is_Some (NewRegistry (fun _ => Sample.succeed "{}") RoleAdmin !! "put_record").
Proof.
  destruct (registry_follows_role (fun _ => Sample.succeed "{}") RoleReadOnly
              "put_record") as (_ & _ & _ & Hro & _).
  destruct (registry_follows_role (fun _ => Sample.succeed "{}") RoleAdmin
              "put_record") as (_ & _ & _ & Had & _).
  split.
  - apply eq_None_not_Some. intros Hs. apply (Hro eq_refl) in Hs. discriminate.
  - apply (Had eq_refl). reflexivity.
Defined.

End ToolsMore.
